(** * Secure Media Vault: the GraphQL resolvers over the asset ledger

    A shallow embedding of [apps/api/src/resolvers.ts] (the upload-ticket,
    finalize, rename, share and download-token resolvers), of the ledger
    tables of [supabase/migrations/20250101000000_initial_schema.sql] and of
    the [hash-object] edge function, followed by the properties of the
    upload / finalize protocol, the optimistic version guard and the
    download access tokens. *)

From stdpp Require Import base decidable option list sorting gmap strings.
From Stdlib Require Import Ascii ZArith Lia.

Local Open Scope Z_scope.

(** ** Ledger rows

    One module per table of the migration; the fields are the columns.
    Timestamps ([timestamptz] columns, [Date.now()]) are milliseconds since
    the epoch. *)

(** [status text check (status in ('draft','uploading','ready','corrupt'))] *)
Inductive Status := Draft | Uploading | Ready | Corrupt.

#[global] Instance Status_eq_dec : EqDecision Status.
Proof. solve_decision. Defined.

Module Asset.
Record row := mk {
  id : string;
  owner_id : string;
  filename : string;
  mime : string;
  size : Z;
  storage_path : string;
  sha256 : option string;
  status : Status;
  version : Z;
  created_at : Z;
  updated_at : Z
}.
End Asset.

Module Share.
Record row := mk {
  id : string;
  asset_id : string;
  to_user : string;
  can_download : bool;
  created_at : Z
}.
End Share.

Module Ticket.
Record row := mk {
  asset_id : string;
  user_id : string;
  nonce : string;
  mime : string;
  size : Z;
  storage_path : string;
  expires_at : Z;
  used : bool
}.
End Ticket.

Module Audit.
Record row := mk {
  id : string;
  asset_id : string;
  user_id : string;
  at_ : Z
}.
End Audit.

Module User.
Record row := mk {
  id : string;
  email : string
}.
End User.

(** The value type of [urlAccessCache]. *)
Record CacheEntry := mkCacheEntry {
  ce_userId : string;
  ce_assetId : string;
  ce_expiresAt : Z
}.

(** ** Errors and client responses *)

(** What a resolver throws: a [GraphQLError] with its [extensions.code], the
    error object of a ledger query rethrown as it is ([throw error]), the
    error of a storage call, or the [TypeError] of reading a field of
    [null]. *)
Inductive Error :=
| GraphQLError (message code : string)
| PostgrestError (code : string)
| StorageError (message : string)
| TypeError.

(** The [{ data, error }] pair every supabase-js call resolves to; [error]
    carries the error code ([error.code]). *)
Record Response (A : Type) := mkResponse {
  data : option A;
  error : option string
}.
Arguments mkResponse {A} _ _.
Arguments data {A} _.
Arguments error {A} _.

Definition ok {A} (a : A) : Response A := mkResponse (Some a) None.
Definition failed {A} (code : string) : Response A := mkResponse None (Some code).

(** PostgREST: a singular response was requested and the result does not
    hold exactly one row. *)
Definition PGRST116 : string := "PGRST116".
(** PostgreSQL: [unique_violation], [foreign_key_violation],
    [numeric_value_out_of_range]. *)
Definition unique_violation : string := "23505".
Definition foreign_key_violation : string := "23503".
Definition numeric_value_out_of_range : string := "22003".

(** [.single()] *)
Definition single {A} (rows : list A) : Response A :=
  match rows with
  | [r] => ok r
  | _ => failed PGRST116
  end.

(** [.maybeSingle()] *)
Definition maybeSingle {A} (rows : list A) : Response A :=
  match rows with
  | [] => mkResponse None None
  | [r] => ok r
  | _ => failed PGRST116
  end.

(** ** The blob gateway and the hash-object edge function *)

(** [supabase.storage.from("private-media")]: the calls the resolvers and the
    edge function make. The gateway is an external collaborator; the world
    carries its answers. *)
Record BlobGateway := mkBlobGateway {
  createSignedUploadUrl : string → Response string;
  createSignedUrl : string → Z → Response string;
  download : string → option (list Z)
}.

(** [detectMimeType(bytes)] of the edge function. *)
Definition detectMimeType (bytes : list Z) : option string :=
  if bool_decide (length bytes < 12)%nat then None else
  let b i := default 0 (bytes !! i) in
  if bool_decide (b 0%nat = 0xFF ∧ b 1%nat = 0xD8 ∧ b 2%nat = 0xFF) then Some "image/jpeg"
  else if bool_decide (b 0%nat = 0x89 ∧ b 1%nat = 0x50 ∧ b 2%nat = 0x4E ∧ b 3%nat = 0x47)
  then Some "image/png"
  else if bool_decide (b 0%nat = 0x52 ∧ b 1%nat = 0x49 ∧ b 2%nat = 0x46 ∧ b 3%nat = 0x46
                       ∧ b 8%nat = 0x57 ∧ b 9%nat = 0x45 ∧ b 10%nat = 0x42 ∧ b 11%nat = 0x50)
  then Some "image/webp"
  else if bool_decide (b 0%nat = 0x25 ∧ b 1%nat = 0x50 ∧ b 2%nat = 0x44 ∧ b 3%nat = 0x46)
  then Some "application/pdf"
  else None.

(** The JSON bodies of the edge function, with their HTTP status. *)
Inductive HashReply :=
| Hashed (sha256 : string) (size : Z) (detectedMime : option string)   (* 200 *)
| BadPath                                                             (* 400 *)
| NotAccessible (path : string).                                      (* 404 *)

Section HashObject.
(** [crypto.subtle.digest("SHA-256", _)] rendered as lower-case hex. *)
Variable sha256_hex : list Z → string.

(** The handler of [hash-object] on a POST whose JSON body carries [path]
    ([None]: the field is missing or is not a string). *)
Definition hashObject (gw : BlobGateway) (path : option string) : HashReply :=
  match path with
  | None => BadPath
  | Some p =>
    if bool_decide (p = "") then BadPath else
    match download gw p with
    | None => NotAccessible p
    | Some bytes =>
      Hashed (sha256_hex bytes) (Z.of_nat (length bytes)) (detectMimeType bytes)
    end
  end.
End HashObject.

(** ** The world a resolver runs in *)

Record World := mkWorld {
  asset : list Asset.row;
  asset_share : list Share.row;
  upload_ticket : list Ticket.row;
  download_audit : list Audit.row;
  users : list User.row;
  urlAccessCache : gmap string CacheEntry;
  storage : BlobGateway
}.

Definition set_asset (rows : list Asset.row) (w : World) : World :=
  mkWorld rows (asset_share w) (upload_ticket w) (download_audit w) (users w)
          (urlAccessCache w) (storage w).
Definition set_asset_share (rows : list Share.row) (w : World) : World :=
  mkWorld (asset w) rows (upload_ticket w) (download_audit w) (users w)
          (urlAccessCache w) (storage w).
Definition set_upload_ticket (rows : list Ticket.row) (w : World) : World :=
  mkWorld (asset w) (asset_share w) rows (download_audit w) (users w)
          (urlAccessCache w) (storage w).
Definition set_download_audit (rows : list Audit.row) (w : World) : World :=
  mkWorld (asset w) (asset_share w) (upload_ticket w) rows (users w)
          (urlAccessCache w) (storage w).
Definition set_urlAccessCache (c : gmap string CacheEntry) (w : World) : World :=
  mkWorld (asset w) (asset_share w) (upload_ticket w) (download_audit w) (users w)
          c (storage w).

(** ** The resolver monad: the world threaded through, a throw ends the call
    and keeps the writes made before it. *)

Definition Resolver (A : Type) : Type := World → World * (Error + A).

Definition ret {A} (a : A) : Resolver A := λ w, (w, inr a).
Definition throw {A} (e : Error) : Resolver A := λ w, (w, inl e).
Definition bind {A B} (m : Resolver A) (k : A → Resolver B) : Resolver B :=
  λ w, match m w with
       | (w', inr a) => k a w'
       | (w', inl e) => (w', inl e)
       end.
Definition gets {A} (f : World → A) : Resolver A := λ w, (w, inr (f w)).
Definition modify (f : World → World) : Resolver unit := λ w, (f w, inr tt).
(** A ledger call: it may write, and resolves to a response. *)
Definition query {A} (f : World → World * Response A) : Resolver (Response A) :=
  λ w, let '(w', r) := f w in (w', inr r).

Declare Scope resolver_scope.
Delimit Scope resolver_scope with resolver.
Notation "x <~ m ;; k" := (bind m (λ x, k))
  (at level 100, m at next level, right associativity) : resolver_scope.
Notation "m ;;; k" := (bind m (λ _, k))
  (at level 100, right associativity) : resolver_scope.
Local Open Scope resolver_scope.

(** ** Authentication *)

Record Context := mkContext { userId : option string }.

(** [requireAuth]: [!ctx.userId] holds for [undefined] and for the empty
    string. *)
Definition requireAuth (ctx : Context) : Resolver string :=
  match userId ctx with
  | Some u =>
    if bool_decide (u = "") then
      throw (GraphQLError "Unauthorized" "UNAUTHENTICATED")
    else ret u
  | None => throw (GraphQLError "Unauthorized" "UNAUTHENTICATED")
  end.

(** ** Ledger operations

    Relational semantics of the supabase-js calls the resolvers make: a
    filter chain [.eq(..)] is a [filter], an update rewrites the rows that
    match, an insert checks the keys of the migration. *)

(** [int]: a four-byte signed column. *)
Definition int4 (z : Z) : Prop := -2147483648 ≤ z ≤ 2147483647.

#[global] Instance int4_dec z : Decision (int4 z).
Proof. unfold int4. apply _. Defined.

(** The row fits the column types ([size int], [version int]). *)
Definition asset_fits (a : Asset.row) : Prop :=
  int4 (Asset.size a) ∧ int4 (Asset.version a).

#[global] Instance asset_fits_dec a : Decision (asset_fits a).
Proof. unfold asset_fits. apply _. Defined.

(** The trigger [asset_updated_at]: every update stamps [updated_at]. *)
Definition touch (now : Z) (a : Asset.row) : Asset.row :=
  Asset.mk (Asset.id a) (Asset.owner_id a) (Asset.filename a) (Asset.mime a)
           (Asset.size a) (Asset.storage_path a) (Asset.sha256 a) (Asset.status a)
           (Asset.version a) (Asset.created_at a) now.

(** [from("asset").insert(row)]: [id] is the primary key and [storage_path]
    is unique. *)
Definition insert_asset (r : Asset.row) (w : World) : World * Response unit :=
  if bool_decide (asset_fits r) then
    if bool_decide (Exists (λ a, Asset.id a = Asset.id r
                                 ∨ Asset.storage_path a = Asset.storage_path r) (asset w))
    then (w, failed unique_violation)
    else (set_asset (asset w ++ [r]) w, mkResponse None None)
  else (w, failed numeric_value_out_of_range).

(** [from("upload_ticket").insert(row)]: [asset_id] is the primary key and
    references [asset(id)], [nonce] is unique. *)
Definition insert_ticket (t : Ticket.row) (w : World) : World * Response unit :=
  if bool_decide (int4 (Ticket.size t)) then
    if bool_decide (Exists (λ x, Ticket.asset_id x = Ticket.asset_id t
                                 ∨ Ticket.nonce x = Ticket.nonce t) (upload_ticket w))
    then (w, failed unique_violation)
    else if bool_decide (Exists (λ a, Asset.id a = Ticket.asset_id t) (asset w))
    then (set_upload_ticket (upload_ticket w ++ [t]) w, mkResponse None None)
    else (w, failed foreign_key_violation)
  else (w, failed numeric_value_out_of_range).

(** [from("download_audit").insert(row)] *)
Definition insert_audit (r : Audit.row) (w : World) : World * Response unit :=
  if bool_decide (Exists (λ x, Audit.id x = Audit.id r) (download_audit w))
  then (w, failed unique_violation)
  else if bool_decide (Exists (λ a, Asset.id a = Audit.asset_id r) (asset w))
  then (set_download_audit (download_audit w ++ [r]) w, mkResponse None None)
  else (w, failed foreign_key_violation).

(** [from("asset").update(patch).eq(..)...select("*").single()]: the rows
    that match are rewritten and returned; a value that does not fit its
    column, or a result that is not exactly one row, is an error and
    nothing is written. ([id] being the primary key, the filters of the
    resolvers match at most one row.) *)
Definition update_asset (P : Asset.row → Prop) `{∀ a, Decision (P a)}
    (patch : Asset.row → Asset.row) (now : Z) (w : World)
    : World * Response Asset.row :=
  let written := (λ a, touch now (patch a)) <$> filter P (asset w) in
  if bool_decide (Forall asset_fits written) then
    match written with
    | [a'] =>
      (set_asset ((λ a, if decide (P a) then touch now (patch a) else a) <$> asset w) w,
       ok a')
    | _ => (w, failed PGRST116)
    end
  else (w, failed numeric_value_out_of_range).

(** [from("asset_share").upsert(row).select("*").single()]: the conflict
    target is the primary key [id]; [(asset_id, to_user)] is unique. *)
Definition upsert_share (s : Share.row) (w : World) : World * Response Share.row :=
  if bool_decide (Exists (λ x, Share.id x ≠ Share.id s
                               ∧ Share.asset_id x = Share.asset_id s
                               ∧ Share.to_user x = Share.to_user s) (asset_share w))
  then (w, failed unique_violation)
  else if bool_decide (Exists (λ a, Asset.id a = Share.asset_id s) (asset w))
  then
    if bool_decide (Exists (λ x, Share.id x = Share.id s) (asset_share w))
    then (set_asset_share
            ((λ x, if decide (Share.id x = Share.id s) then s else x) <$> asset_share w) w,
          ok s)
    else (set_asset_share (asset_share w ++ [s]) w, ok s)
  else (w, failed foreign_key_violation).

(** ** What the resolvers return *)

(** The GraphQL type [Asset]. *)
Record AssetNode := mkAssetNode {
  n_id : string;
  n_filename : string;
  n_mime : string;
  n_size : Z;
  n_sha256 : option string;
  n_status : Status;
  n_version : Z;
  n_createdAt : Z;
  n_updatedAt : Z
}.

Definition node (a : Asset.row) : AssetNode :=
  mkAssetNode (Asset.id a) (Asset.filename a) (Asset.mime a) (Asset.size a)
              (Asset.sha256 a) (Asset.status a) (Asset.version a)
              (Asset.created_at a) (Asset.updated_at a).

Record AssetEdge := mkAssetEdge { cursor : Z; edge_node : AssetNode }.

Record PageInfo := mkPageInfo { endCursor : option Z; hasNextPage : bool }.

Record AssetConnection := mkAssetConnection {
  edges : list AssetEdge;
  pageInfo : PageInfo
}.

Record UploadTicket := mkUploadTicket {
  ut_assetId : string;
  ut_storagePath : string;
  ut_uploadUrl : string;
  ut_expiresAt : Z;
  ut_nonce : string;
  ut_version : Z
}.

Record DownloadLink := mkDownloadLink { url : string; dl_expiresAt : Z }.

Record TokenValidation := mkTokenValidation { valid : bool; tv_assetId : string }.

Record SharedAsset := mkSharedAsset {
  sa_id : string;
  sa_asset_id : string;
  sa_owner_id : string;
  sa_shared_with_email : string;
  sa_can_download : bool;
  sa_revoked : bool;
  sa_created_at : Z
}.

Record ShareResult := mkShareResult {
  success : bool;
  sr_message : string;
  share : option SharedAsset
}.

(** ** [sanitizeFilename] *)

Definition is_filename_char (c : ascii) : bool :=
  let n := nat_of_ascii c in
  ((48 <=? n) && (n <=? 57) || (65 <=? n) && (n <=? 90) || (97 <=? n) && (n <=? 122)
   || bool_decide (c = "."%char) || bool_decide (c = "_"%char)
   || bool_decide (c = "-"%char))%nat.

(** [.replace(/[^a-zA-Z0-9._-]/g, "_")] *)
Fixpoint replace_other_chars (s : string) : string :=
  match s with
  | EmptyString => EmptyString
  | String c s' =>
    String (if is_filename_char c then c else "_"%char) (replace_other_chars s')
  end.

(** [.replace(/_+/g, "_")] *)
Fixpoint collapse_underscores (s : string) : string :=
  match s with
  | EmptyString => EmptyString
  | String c s' =>
    match s' with
    | String c' _ =>
      if bool_decide (c = "_"%char ∧ c' = "_"%char) then collapse_underscores s'
      else String c (collapse_underscores s')
    | EmptyString => String c EmptyString
    end
  end.

Definition is_space (c : ascii) : bool :=
  let n := nat_of_ascii c in ((9 <=? n) && (n <=? 13) || (n =? 32))%nat.

Fixpoint trim_start (s : string) : string :=
  match s with
  | String c s' => if is_space c then trim_start s' else s
  | EmptyString => EmptyString
  end.

(** [.trim()] *)
Definition trim (s : string) : string :=
  String.rev (trim_start (String.rev (trim_start s))).

Definition sanitizeFilename (filename : string) : string :=
  trim (collapse_underscores (replace_other_chars filename)).

(** ** The resolvers

    [crypto.randomUUID()], [crypto.randomBytes(..)] and [Date.now()] are
    inputs of a call: the identifiers and the clock reading [now] it is
    given. The clock readings of one call are taken to be equal. *)

Definition ALLOWED_MIMES : list string :=
  ["image/jpeg"; "image/png"; "image/webp"; "application/pdf"].

(** [throw error] for the error of a ledger call. *)
Definition rethrow {A} (code : string) : Resolver A := throw (PostgrestError code).

Section Listing.
(** PostgreSQL's [filename ILIKE pattern]. *)
Variable ilike : string → string → bool.

(** [limit || 50] *)
Definition page_limit (first : option Z) : Z :=
  match first with
  | Some n => if bool_decide (n = 0) then 50 else n
  | None => 50
  end.

(** [Array.prototype.slice(0, n)] *)
Definition slice0 {A} (n : Z) (l : list A) : list A :=
  if bool_decide (0 ≤ n) then take (Z.to_nat n) l
  else take (Z.to_nat (Z.of_nat (length l) + n)) l.

(** [ORDER BY created_at DESC] *)
Definition newer_first (a b : Asset.row) : Prop :=
  Asset.created_at b ≤ Asset.created_at a.

#[global] Instance newer_first_dec a b : Decision (newer_first a b).
Proof. unfold newer_first. apply _. Defined.

(** The rows the listing query of [myAssets] selects, before [LIMIT]:
    [after] and [q] are applied when they are not empty. *)
Definition listing_rows (userId : string) (after : option Z) (q : option string)
    (w : World) : list Asset.row :=
  let owned := filter (λ a, Asset.owner_id a = userId) (asset w) in
  let matching :=
    match q with
    | Some s =>
      if bool_decide (s = "") then owned
      else filter (λ a, ilike (Asset.filename a) ("%" +:+ s +:+ "%") = true) owned
    | None => owned
    end in
  let newer :=
    match after with
    | Some t => filter (λ a, Asset.created_at a > t) matching
    | None => matching
    end in
  merge_sort newer_first newer.

(** [.limit(n)]; a negative count is refused by the ledger ("Requested range
    not satisfiable"). *)
Definition limit_rows {A} (n : Z) (rows : list A) : Response (list A) :=
  if bool_decide (0 ≤ n) then ok (take (Z.to_nat n) rows) else failed "PGRST103".

Definition myAssets (ctx : Context) (after : option Z) (first : option Z)
    (q : option string) : Resolver AssetConnection :=
  userId <~ requireAuth ctx;;
  let limit := page_limit first in
  r <~ gets (λ w, limit_rows (limit + 1) (listing_rows userId after q w));;
  match error r with
  | Some e => rethrow e
  | None =>
    let assets := default [] (data r) in
    let hasNextPage := bool_decide (Z.of_nat (length assets) > limit) in
    let nodes := if hasNextPage then slice0 limit assets else assets in
    ret (mkAssetConnection
           ((λ a, mkAssetEdge (Asset.created_at a) (node a)) <$> nodes)
           (mkPageInfo (Asset.created_at <$> last nodes) hasNextPage))
  end.
End Listing.

Definition getDownloadUrl (ctx : Context) (assetId : string)
    (accessToken auditId : string) (now : Z) : Resolver DownloadLink :=
  userId <~ requireAuth ctx;;
  r <~ gets (λ w, single (filter (λ a, Asset.id a = assetId) (asset w)));;
  match error r with
  | Some assetError => rethrow assetError
  | None =>
    match data r with
    | None => throw (GraphQLError "Asset not found" "NOT_FOUND")
    | Some a =>
      (if bool_decide (Asset.owner_id a ≠ userId) then
         s <~ gets (λ w, maybeSingle
                           (filter (λ s, Share.asset_id s = assetId
                                         ∧ Share.to_user s = userId
                                         ∧ Share.can_download s = true)
                                   (asset_share w)));;
         match error s with
         | Some shareError => rethrow shareError
         | None =>
           match data s with
           | None => throw (GraphQLError "Access denied" "FORBIDDEN")
           | Some _ => ret tt
           end
         end
       else ret tt);;;
      u <~ gets (λ w, createSignedUrl (storage w) (Asset.storage_path a) 90);;
      match error u with
      | Some urlError => throw (StorageError urlError)
      | None =>
        let expiresAt := now + 90 * 1000 in
        modify (λ w, set_urlAccessCache
                       (<[accessToken := mkCacheEntry userId assetId expiresAt]>
                          (urlAccessCache w)) w);;;
        query (insert_audit (Audit.mk auditId assetId userId now));;;
        match data u with
        | None => throw TypeError
        | Some signedUrl =>
          ret (mkDownloadLink (signedUrl +:+ "&access_token=" +:+ accessToken) expiresAt)
        end
      end
    end
  end.

Definition validateDownloadToken (ctx : Context) (accessToken : string) (now : Z)
    : Resolver TokenValidation :=
  userId <~ requireAuth ctx;;
  cached <~ gets (λ w, urlAccessCache w !! accessToken);;
  match cached with
  | None => throw (GraphQLError "Invalid or expired access token" "FORBIDDEN")
  | Some cached =>
    if bool_decide (ce_userId cached ≠ userId) then
      throw (GraphQLError "Access denied" "FORBIDDEN")
    else if bool_decide (ce_expiresAt cached < now) then
      modify (λ w, set_urlAccessCache (delete accessToken (urlAccessCache w)) w);;;
      throw (GraphQLError "Token expired" "FORBIDDEN")
    else
      modify (λ w, set_urlAccessCache (delete accessToken (urlAccessCache w)) w);;;
      ret (mkTokenValidation true (ce_assetId cached))
  end.

(** The [setInterval] sweep of [urlAccessCache]. *)
Definition sweep (now : Z) (w : World) : World :=
  set_urlAccessCache
    (filter (λ kv, ¬ ce_expiresAt kv.2 < now) (urlAccessCache w)) w.

Definition TEN_MINUTES : Z := 10 * 60 * 1000.

Definition createUploadUrl (ctx : Context) (filename mime : string) (size : Z)
    (assetId nonce : string) (now : Z) : Resolver UploadTicket :=
  userId <~ requireAuth ctx;;
  if bool_decide (mime ∈ ALLOWED_MIMES) then
    let sanitizedFilename := sanitizeFilename filename in
    let storagePath := userId +:+ "/" +:+ assetId +:+ "/" +:+ sanitizedFilename in
    ra <~ query (insert_asset
                   (Asset.mk assetId userId filename mime size storagePath None Draft 1
                             now now));;
    match error ra with
    | Some assetError => rethrow assetError
    | None =>
      rt <~ query (insert_ticket
                     (Ticket.mk assetId userId nonce mime size storagePath
                                (now + TEN_MINUTES) false));;
      match error rt with
      | Some ticketError => rethrow ticketError
      | None =>
        signed <~ gets (λ w, createSignedUploadUrl (storage w) storagePath);;
        match error signed with
        | Some urlError => throw (StorageError urlError)
        | None =>
          match data signed with
          | None => throw TypeError
          | Some signedUrl =>
            ret (mkUploadTicket assetId storagePath signedUrl (now + TEN_MINUTES) nonce 1)
          end
        end
      end
    end
  else throw (GraphQLError ("Unsupported file type: " +:+ mime) "BAD_REQUEST").

(** [update({ used: true })] *)
Definition mark_used (t : Ticket.row) : Ticket.row :=
  Ticket.mk (Ticket.asset_id t) (Ticket.user_id t) (Ticket.nonce t) (Ticket.mime t)
            (Ticket.size t) (Ticket.storage_path t) (Ticket.expires_at t) true.

(** [update({ sha256: clientSha256, status, version })] *)
Definition finalize_patch (clientSha256 : string) (status : Status) (version : Z)
    (a : Asset.row) : Asset.row :=
  Asset.mk (Asset.id a) (Asset.owner_id a) (Asset.filename a) (Asset.mime a)
           (Asset.size a) (Asset.storage_path a) (Some clientSha256) status version
           (Asset.created_at a) (Asset.updated_at a).

Definition finalizeUpload (ctx : Context) (assetId clientSha256 : string) (version : Z)
    (now : Z) : Resolver AssetNode :=
  userId <~ requireAuth ctx;;
  t <~ gets (λ w, single (filter (λ t, Ticket.asset_id t = assetId
                                      ∧ Ticket.user_id t = userId
                                      ∧ Ticket.used t = false) (upload_ticket w)));;
  match error t, data t with
  | None, Some _ =>
    modify (λ w, set_upload_ticket
                   ((λ t, if decide (Ticket.asset_id t = assetId) then mark_used t else t)
                      <$> upload_ticket w) w);;;
    let status := if bool_decide (clientSha256 = "") then Corrupt else Ready in
    r <~ query (update_asset (λ a, Asset.id a = assetId)
                             (finalize_patch clientSha256 status version) now);;
    match error r with
    | Some assetError => rethrow assetError
    | None =>
      match data r with
      | None => throw TypeError
      | Some a => ret (node a)
      end
    end
  | _, _ => throw (GraphQLError "Invalid or used upload ticket" "INVALID_TICKET")
  end.

(** [update({ filename, version: version + 1 })] *)
Definition rename_patch (filename : string) (version : Z) (a : Asset.row) : Asset.row :=
  Asset.mk (Asset.id a) (Asset.owner_id a) filename (Asset.mime a)
           (Asset.size a) (Asset.storage_path a) (Asset.sha256 a) (Asset.status a)
           (version + 1) (Asset.created_at a) (Asset.updated_at a).

Definition renameAsset (ctx : Context) (assetId filename : string) (version : Z)
    (now : Z) : Resolver AssetNode :=
  userId <~ requireAuth ctx;;
  r <~ query (update_asset (λ a, Asset.id a = assetId ∧ Asset.owner_id a = userId
                                 ∧ Asset.version a = version)
                           (rename_patch filename version) now);;
  match error r with
  | Some code =>
    if bool_decide (code = "PGRST116") then
      throw (GraphQLError "Version conflict" "CONFLICT")
    else rethrow code
  | None =>
    match data r with
    | None => throw TypeError
    | Some a => ret (node a)
    end
  end.

(** The version-guarded read that opens [shareAsset] and [revokeShare]. *)
Definition guarded_asset (assetId userId : string) (version : Z) (w : World)
    : Response Asset.row :=
  single (filter (λ a, Asset.id a = assetId ∧ Asset.owner_id a = userId
                       ∧ Asset.version a = version) (asset w)).

Definition user_by_email (toEmail : string) (w : World) : Response User.row :=
  single (filter (λ u, User.email u = toEmail) (users w)).

Definition shareAsset (ctx : Context) (assetId toEmail : string) (canDownload : bool)
    (version : Z) (shareId : string) (now : Z) : Resolver ShareResult :=
  userId <~ requireAuth ctx;;
  ra <~ gets (guarded_asset assetId userId version);;
  match error ra with
  | Some assetError => rethrow assetError
  | None =>
    ru <~ gets (user_by_email toEmail);;
    match error ru, data ru with
    | None, Some targetUser =>
      rs <~ query (upsert_share
                     (Share.mk shareId assetId (User.id targetUser) canDownload now));;
      match error rs with
      | Some e => rethrow e
      | None =>
        match data rs, data ra with
        | Some d, Some a =>
          ret (mkShareResult true "Asset shared successfully"
                 (Some (mkSharedAsset (Share.id d) (Share.asset_id d) (Asset.owner_id a)
                                      toEmail (Share.can_download d) false
                                      (Share.created_at d))))
        | _, _ => throw TypeError
        end
      end
    | _, _ => throw (GraphQLError "User not found" "NOT_FOUND")
    end
  end.

Definition revokeShare (ctx : Context) (assetId toEmail : string) (version : Z)
    : Resolver ShareResult :=
  userId <~ requireAuth ctx;;
  ra <~ gets (guarded_asset assetId userId version);;
  match error ra with
  | Some assetError => rethrow assetError
  | None =>
    ru <~ gets (user_by_email toEmail);;
    match error ru, data ru with
    | None, Some targetUser =>
      modify (λ w, set_asset_share
                     (filter (λ s, ¬ (Share.asset_id s = assetId
                                      ∧ Share.to_user s = User.id targetUser))
                             (asset_share w)) w);;;
      ret (mkShareResult true "Share revoked successfully" None)
    | _, _ => throw (GraphQLError "User not found" "NOT_FOUND")
    end
  end.

(** ** Scenario worlds *)

Module Scenario.
Definition alice : Context := mkContext (Some "user-a").
Definition bob : Context := mkContext (Some "user-b").

(** A gateway that signs every path and holds one object whose bytes
    digest to ["cafebabe"] under [digest]. *)
Definition gateway : BlobGateway :=
  mkBlobGateway (λ p, ok ("https://blob/put/" +:+ p))
                (λ p _, ok ("https://blob/get/" +:+ p +:+ "?sig=1"))
                (λ p, if bool_decide (p = "user-a/asset-1/photo.jpg")
                      then Some [1; 2; 3] else None).

Definition digest (bytes : list Z) : string := "cafebabe".

Definition empty : World :=
  mkWorld [] [] [] [] [User.mk "user-a" "a@example.org"; User.mk "user-b" "b@example.org"]
          ∅ gateway.

(** Alice was issued a ticket for [photo.jpg] at time 1000. *)
Definition issued : World :=
  (createUploadUrl alice "photo.jpg" "image/jpeg" 1024 "asset-1" "nonce-1" 1000 empty).1.

(** ... and finalized it at time 2000. *)
Definition finalized : World :=
  (finalizeUpload alice "asset-1" "cafebabe" 1 2000 issued).1.
End Scenario.

(** ** Vocabulary of the properties *)

(** The identity resolver mapped the bearer token to the user [u]. *)
Definition authenticated (ctx : Context) (u : string) : Prop :=
  userId ctx = Some u ∧ u ≠ "".

(** [id uuid primary key] of the [asset] table. *)
Definition primary_key (w : World) : Prop := NoDup (Asset.id <$> asset w).

(** The version counter of the asset [assetId], when the ledger has it. *)
Definition asset_version (w : World) (assetId : string) : option Z :=
  Asset.version <$> head (filter (λ a, Asset.id a = assetId) (asset w)).

(** The call returned a result rather than throwing. *)
Definition returned {A} (r : Error + A) : bool :=
  match r with inr _ => true | inl _ => false end.

Definition accepted {A} (r : World * (Error + A)) : Prop := returned r.2 = true.

(** The call threw a [GraphQLError] whose extension code is [code]. *)
Definition fails_with {A} (code : string) (r : World * (Error + A)) : Prop :=
  ∃ message, r.2 = inl (GraphQLError message code).

(** The mutations of an asset that carry a version: their resolver calls. *)
Inductive Mutation :=
| Create (ctx : Context) (filename mime : string) (size : Z) (assetId nonce : string)
         (now : Z)
| Rename (ctx : Context) (assetId filename : string) (version : Z) (now : Z)
| ShareWith (ctx : Context) (assetId toEmail : string) (canDownload : bool) (version : Z)
            (shareId : string) (now : Z)
| Revoke (ctx : Context) (assetId toEmail : string) (version : Z).

(** Running a mutation: the world after it, and whether it was accepted. *)
Definition run (m : Mutation) (w : World) : World * bool :=
  match m with
  | Create ctx filename mime size assetId nonce now =>
    let r := createUploadUrl ctx filename mime size assetId nonce now w in
    (r.1, returned r.2)
  | Rename ctx assetId filename version now =>
    let r := renameAsset ctx assetId filename version now w in (r.1, returned r.2)
  | ShareWith ctx assetId toEmail canDownload version shareId now =>
    let r := shareAsset ctx assetId toEmail canDownload version shareId now w in
    (r.1, returned r.2)
  | Revoke ctx assetId toEmail version =>
    let r := revokeShare ctx assetId toEmail version w in (r.1, returned r.2)
  end.

(** The version every asset has after an accepted mutation, from the
    versions before it: creation starts the new asset at 1, a rename adds 1
    to the renamed asset, sharing and revoking change no version. *)
Definition version_after (m : Mutation) (w : World) (aid : string) : option Z :=
  match m with
  | Create _ _ _ _ assetId _ _ =>
    if decide (aid = assetId) then Some 1 else asset_version w aid
  | Rename _ assetId _ _ _ =>
    if decide (aid = assetId) then (λ v, v + 1) <$> asset_version w aid
    else asset_version w aid
  | ShareWith _ _ _ _ _ _ _ | Revoke _ _ _ _ => asset_version w aid
  end.

(** A run of mutations, accepted or not. *)
Fixpoint run_all (ms : list Mutation) (w : World) : World :=
  match ms with
  | [] => w
  | m :: rest => run_all rest (run m w).1
  end.

(** The key and the column types of the [asset] table hold. *)
Definition ledger_ok (w : World) : Prop :=
  primary_key w ∧ Forall asset_fits (asset w).

(** The worlds the resolvers can bring about, from a ledger without assets. *)
Inductive reachable : World → Prop :=
| reachable_start w :
    asset w = [] → reachable w
| reachable_mutation m w :
    reachable w → reachable (run m w).1
| reachable_finalize ctx assetId clientSha256 version now w :
    reachable w → reachable (finalizeUpload ctx assetId clientSha256 version now w).1
| reachable_download ctx assetId accessToken auditId now w :
    reachable w → reachable (getDownloadUrl ctx assetId accessToken auditId now w).1
| reachable_validate ctx accessToken now w :
    reachable w → reachable (validateDownloadToken ctx accessToken now w).1
| reachable_sweep now w :
    reachable w → reachable (sweep now w).

(** What may happen to the access-token cache between two mints. *)
Inductive CacheEvent :=
| Validate (ctx : Context) (accessToken : string) (now : Z)
| Sweep (now : Z).

(** How many validations of [token] succeed along a run of cache events. *)
Fixpoint successes (token : string) (events : list CacheEvent) (w : World) : nat :=
  match events with
  | [] => 0
  | Validate ctx accessToken now :: rest =>
    let r := validateDownloadToken ctx accessToken now w in
    ((if returned r.2 && bool_decide (accessToken = token) then 1 else 0)
     + successes token rest r.1)%nat
  | Sweep now :: rest => successes token rest (sweep now w)
  end.

(** The asset row and the ticket row [createUploadUrl] writes. *)
Definition draft_row (u filename mime : string) (size : Z) (assetId : string) (now : Z)
    : Asset.row :=
  Asset.mk assetId u filename mime size
           (u +:+ "/" +:+ assetId +:+ "/" +:+ sanitizeFilename filename)
           None Draft 1 now now.

Definition ticket_row (u filename mime : string) (size : Z) (assetId nonce : string)
    (now : Z) : Ticket.row :=
  Ticket.mk assetId u nonce mime size
            (u +:+ "/" +:+ assetId +:+ "/" +:+ sanitizeFilename filename)
            (now + 10 * 60 * 1000) false.

Module Cases.
Import Scenario.

(** Alice shared [asset-1] with Bob, download allowed. *)
Definition shared : World :=
  (shareAsset alice "asset-1" "b@example.org" true 1 "share-1" 4000 finalized).1.

(** The ticket of [asset-1] finalized with the largest [Int] as version. *)
Definition maxed : World :=
  (finalizeUpload alice "asset-1" "cafebabe" 2147483647 2000 issued).1.

(** Three uploads of Alice, issued at times 1000, 2000 and 3000. *)
Definition three : World :=
  let w1 := issued in
  let w2 := (createUploadUrl alice "b.png" "image/png" 10 "asset-2" "nonce-2" 2000 w1).1 in
  (createUploadUrl alice "c.pdf" "application/pdf" 20 "asset-3" "nonce-3" 3000 w2).1.

Definition any_ilike (filename pattern : string) : bool := true.

(** Alice asked for a download link of [asset-1] at time 5000 and the
    token [tok-1] was drawn for it. *)
Definition minted : World :=
  (getDownloadUrl alice "asset-1" "tok-1" "audit-1" 5000 finalized).1.
End Cases.

(** ** The other resolvers, the request context and the hex rendering *)

(** [listAssets]: the raw rows of the caller, unpaged. *)
Definition listAssets (ctx : Context) : Resolver (list Asset.row) :=
  userId <~ requireAuth ctx;;
  r <~ gets (λ w, ok (filter (λ a, Asset.owner_id a = userId) (asset w)));;
  match error r with
  | Some e => rethrow e
  | None => ret (default [] (data r))
  end.

(** [from("asset").delete().eq(..)]: the rows that match go, and with them
    the rows of [asset_share], [upload_ticket] and [download_audit] that
    reference them ([on delete cascade]). *)
Definition delete_asset (P : Asset.row → Prop) `{∀ a, Decision (P a)} (w : World)
    : World * Response unit :=
  let gone := Asset.id <$> filter P (asset w) in
  (mkWorld (filter (λ a, ¬ P a) (asset w))
           (filter (λ s, Share.asset_id s ∉ gone) (asset_share w))
           (filter (λ t, Ticket.asset_id t ∉ gone) (upload_ticket w))
           (filter (λ r, Audit.asset_id r ∉ gone) (download_audit w))
           (users w) (urlAccessCache w) (storage w),
   mkResponse None None).

(** [storage.remove([path])]: when the gateway removes the object it can no
    longer be downloaded. The resolver does not look at the outcome. *)
Definition remove_object (removed : bool) (path : string) (w : World) : World :=
  if removed then
    mkWorld (asset w) (asset_share w) (upload_ticket w) (download_audit w) (users w)
            (urlAccessCache w)
            (mkBlobGateway (createSignedUploadUrl (storage w)) (createSignedUrl (storage w))
                           (λ p, if bool_decide (p = path) then None
                                 else download (storage w) p))
  else w.

(** [deleteAsset]; [removed] tells whether the gateway removed the object. *)
Definition deleteAsset (ctx : Context) (assetId : string) (version : Z) (removed : bool)
    : Resolver bool :=
  userId <~ requireAuth ctx;;
  ra <~ gets (guarded_asset assetId userId version);;
  match error ra with
  | Some fetchError => rethrow fetchError
  | None =>
    match data ra with
    | None => throw TypeError
    | Some a =>
      modify (remove_object removed (Asset.storage_path a));;;
      rd <~ query (delete_asset (λ x, Asset.id x = assetId ∧ Asset.owner_id x = userId));;
      match error rd with
      | Some deleteError => rethrow deleteError
      | None => ret true
      end
    end
  end.

(** [String.prototype.replace(pattern, replacement)] with a string pattern:
    the first occurrence is replaced. *)
Fixpoint replace_first (pattern replacement s : string) : string :=
  match String.prefix pattern s, s with
  | true, _ => replacement +:+ String.substring (String.length pattern) (String.length s) s
  | false, String c s' => String c (replace_first pattern replacement s')
  | false, EmptyString => EmptyString
  end.

(** White space of a header value, whose characters are single bytes: the
    ASCII white space and the no-break space. *)
Definition is_header_space (c : ascii) : bool :=
  let n := nat_of_ascii c in ((9 <=? n) && (n <=? 13) || (n =? 32) || (n =? 160))%nat.

Fixpoint header_trim_start (s : string) : string :=
  match s with
  | String c s' => if is_header_space c then header_trim_start s' else s
  | EmptyString => EmptyString
  end.

Definition header_trim (s : string) : string :=
  String.rev (header_trim_start (String.rev (header_trim_start s))).

(** [authHeader?.replace("Bearer ", "").trim()] of the request context. *)
Definition bearer_token (authHeader : option string) : option string :=
  (λ h, header_trim (replace_first "Bearer " "" h)) <$> authHeader.

(** The context function of the server: [getUser] is the identity
    provider's answer for a token, the user id or none. *)
Definition context (getUser : string → option string) (authHeader : option string)
    : Context :=
  match bearer_token authHeader with
  | Some token =>
    if bool_decide (token = "") then mkContext None else mkContext (getUser token)
  | None => mkContext None
  end.

(** The header the client sends: [`Bearer ${session.access_token}`]. *)
Definition authorization_header (access_token : string) : string :=
  "Bearer " +:+ access_token.

(** [b.toString(16)] for a byte. *)
Definition hex_digit (n : Z) : ascii :=
  ascii_of_nat (Z.to_nat (if bool_decide (n < 10) then 48 + n else 87 + n)).

Definition toString16 (b : Z) : string :=
  if bool_decide (b < 16) then String (hex_digit b) EmptyString
  else String (hex_digit (b / 16)) (String (hex_digit (b mod 16)) EmptyString).

(** [s.padStart(2, "0")] *)
Definition padStart2 (s : string) : string :=
  match s with
  | EmptyString => "00"
  | String c EmptyString => String "0"%char s
  | _ => s
  end.

(** [bytes.map((b) => b.toString(16).padStart(2, "0")).join("")], the
    rendering of a digest by the edge function and by the client. *)
Definition hex (bytes : list Z) : string :=
  foldr (λ b acc, padStart2 (toString16 b) +:+ acc) EmptyString bytes.

(** The elements of a [Uint8Array]. *)
Definition is_byte (b : Z) : Prop := 0 ≤ b < 256.

(** ** Vocabulary of the further properties *)

(** Every character is one of [a-zA-Z0-9._-]. *)
Fixpoint only_filename_chars (s : string) : bool :=
  match s with
  | EmptyString => true
  | String c s' => is_filename_char c && only_filename_chars s'
  end.

(** No underscore is followed by an underscore. *)
Fixpoint no_underscore_run (s : string) : bool :=
  match s with
  | String c s' =>
    match s' with
    | String c' _ => negb (bool_decide (c = "_"%char ∧ c' = "_"%char)) && no_underscore_run s'
    | EmptyString => true
    end
  | EmptyString => true
  end.

(** ** Every call that writes, and what holds of the ledger across them *)

(** The calls that can change the world: the mutations, [finalizeUpload],
    [deleteAsset], [getDownloadUrl], and what happens to the cache. *)
Inductive Call :=
| Mutate (m : Mutation)
| Finalize (ctx : Context) (assetId clientSha256 : string) (version : Z) (now : Z)
| Delete (ctx : Context) (assetId : string) (version : Z) (removed : bool)
| Download (ctx : Context) (assetId accessToken auditId : string) (now : Z)
| Cache (e : CacheEvent).

(** The world after a call, whether it returned or threw. *)
Definition perform (c : Call) (w : World) : World :=
  match c with
  | Mutate m => (run m w).1
  | Finalize ctx assetId clientSha256 version now =>
    (finalizeUpload ctx assetId clientSha256 version now w).1
  | Delete ctx assetId version removed => (deleteAsset ctx assetId version removed w).1
  | Download ctx assetId accessToken auditId now =>
    (getDownloadUrl ctx assetId accessToken auditId now w).1
  | Cache (Validate ctx accessToken now) => (validateDownloadToken ctx accessToken now w).1
  | Cache (Sweep now) => sweep now w
  end.

Fixpoint perform_all (cs : list Call) (w : World) : World :=
  match cs with
  | [] => w
  | c :: rest => perform_all rest (perform c w)
  end.

(** The status of an asset row agrees with its hash column. *)
Definition status_matches_hash (a : Asset.row) : Prop :=
  match Asset.status a with
  | Draft => Asset.sha256 a = None
  | Uploading => False
  | Ready => ∃ h, Asset.sha256 a = Some h ∧ h ≠ ""
  | Corrupt => Asset.sha256 a = Some ""
  end.

(** An asset row as the resolvers write it. *)
Definition asset_row_ok (a : Asset.row) : Prop :=
  (∃ filename,
     Asset.storage_path a
     = Asset.owner_id a +:+ "/" +:+ Asset.id a +:+ "/" +:+ sanitizeFilename filename)
  ∧ Asset.mime a ∈ ALLOWED_MIMES
  ∧ status_matches_hash a.

(** A ticket and the asset it was issued for. *)
Definition ticket_of_asset (t : Ticket.row) (a : Asset.row) : Prop :=
  Asset.id a = Ticket.asset_id t ∧ Asset.owner_id a = Ticket.user_id t
  ∧ Asset.storage_path a = Ticket.storage_path t ∧ Asset.mime a = Ticket.mime t
  ∧ Asset.size a = Ticket.size t
  ∧ (Ticket.used t = false → Asset.status a = Draft).

(** Every ticket, grant and audit row belongs to an asset of the ledger. *)
Definition references_ok (w : World) : Prop :=
  Forall (λ t, ∃ a, a ∈ asset w ∧ ticket_of_asset t a) (upload_ticket w)
  ∧ Forall (λ s, ∃ a, a ∈ asset w ∧ Asset.id a = Share.asset_id s) (asset_share w)
  ∧ Forall (λ r, ∃ a, a ∈ asset w ∧ Asset.id a = Audit.asset_id r) (download_audit w).

(** The columns no resolver rewrites: two rows that agree on them are the
    same upload, whatever was renamed or finalized in between. *)
Definition same_origin (a a' : Asset.row) : Prop :=
  Asset.id a' = Asset.id a ∧ Asset.owner_id a' = Asset.owner_id a
  ∧ Asset.mime a' = Asset.mime a ∧ Asset.size a' = Asset.size a
  ∧ Asset.storage_path a' = Asset.storage_path a
  ∧ Asset.created_at a' = Asset.created_at a.

(** The draft row a [createUploadUrl] call writes for its caller. *)
Definition created_by (c : Call) (a : Asset.row) : Prop :=
  match c with
  | Mutate (Create ctx filename mime size assetId nonce now) =>
    ∃ u, userId ctx = Some u ∧ a = draft_row u filename mime size assetId now
  | _ => False
  end.

(** * Properties *)

(** ** The monad and the ledger calls *)

Lemma requireAuth_authenticated ctx u w :
  authenticated ctx u → requireAuth ctx w = (w, inr u).
Proof.
  intros [Hu Hne]. unfold requireAuth. rewrite Hu.
  by rewrite bool_decide_eq_false_2.
Qed.

Lemma requireAuth_anonymous w :
  requireAuth (mkContext None) w = (w, inl (GraphQLError "Unauthorized" "UNAUTHENTICATED")).
Proof. reflexivity. Qed.

Lemma bind_returned {A B} (m : Resolver A) (k : A → Resolver B) w w' a :
  m w = (w', inr a) → bind m k w = k a w'.
Proof. intros H. unfold bind. by rewrite H. Qed.

Lemma bind_thrown {A B} (m : Resolver A) (k : A → Resolver B) w w' e :
  m w = (w', inl e) → bind m k w = (w', inl e).
Proof. intros H. unfold bind. by rewrite H. Qed.

Ltac as_user H :=
  rewrite (bind_returned _ _ _ _ _ (requireAuth_authenticated _ _ _ H)).

Section Filters.
Context {A : Type} (P : A → Prop) `{∀ x, Decision (P x)}.

Lemma filter_none (l : list A) : Forall (λ x, ¬ P x) l → filter P l = [].
Proof.
  induction 1 as [|x l Hx _ IH]; [done|].
  by rewrite filter_cons_False.
Qed.

Lemma filter_none_inv (l : list A) : filter P l = [] → Forall (λ x, ¬ P x) l.
Proof.
  intros Hnil. apply Forall_forall. intros x Hx HP.
  by apply (filter_nil_not_elem_of P l x).
Qed.
End Filters.

(** With a key that has no duplicates, the rows of a key are one row. *)
Lemma filter_key {A K} `{EqDecision K} (key : A → K) (l : list A) (a : A) :
  NoDup (key <$> l) → a ∈ l → filter (λ x, key x = key a) l = [a].
Proof.
  induction l as [|x l IH]; intros Hnd Hin; [by apply elem_of_nil in Hin|].
  rewrite fmap_cons in Hnd. apply NoDup_cons in Hnd as [Hx Hnd].
  apply elem_of_cons in Hin as [->|Hin].
  - rewrite filter_cons_True by done. f_equal.
    apply filter_none, Forall_forall. intros y Hy Heq.
    apply Hx. rewrite <- Heq. by apply list_elem_of_fmap_2.
  - rewrite filter_cons_False; [by apply IH|].
    intros Heq. apply Hx. rewrite Heq. by apply list_elem_of_fmap_2.
Qed.

Section UpdateAsset.
Context (P : Asset.row → Prop) `{∀ a, Decision (P a)}.
Context (patch : Asset.row → Asset.row) (now : Z) (w : World).

Lemma update_asset_no_row :
  filter P (asset w) = [] → update_asset P patch now w = (w, failed PGRST116).
Proof. intros Hf. unfold update_asset. by rewrite Hf. Qed.

Lemma update_asset_one_row a :
  filter P (asset w) = [a] →
  asset_fits (touch now (patch a)) →
  update_asset P patch now w
  = (set_asset ((λ x, if decide (P x) then touch now (patch x) else x) <$> asset w) w,
     ok (touch now (patch a))).
Proof.
  intros Hf Hfit. unfold update_asset. rewrite Hf. simpl.
  by rewrite bool_decide_eq_true_2 by (by apply Forall_cons_2).
Qed.

Lemma update_asset_out_of_range a :
  filter P (asset w) = [a] →
  ¬ asset_fits (touch now (patch a)) →
  update_asset P patch now w = (w, failed numeric_value_out_of_range).
Proof.
  intros Hf Hfit. unfold update_asset. rewrite Hf. simpl.
  rewrite bool_decide_eq_false_2; [done|].
  intros Hall. by apply Forall_cons_1 in Hall as [? _].
Qed.

(** An update writes nothing unless it returns the row it wrote. *)
Lemma update_asset_error :
  error (update_asset P patch now w).2 ≠ None → (update_asset P patch now w).1 = w.
Proof.
  unfold update_asset. case_bool_decide; [|done].
  destruct (_ <$> filter P (asset w)) as [|a' [|? ?]]; simpl; done.
Qed.

Lemma update_asset_no_data :
  data (update_asset P patch now w).2 = None → (update_asset P patch now w).1 = w.
Proof.
  unfold update_asset. case_bool_decide; [|done].
  destruct (_ <$> filter P (asset w)) as [|a' [|? ?]]; simpl; done.
Qed.
End UpdateAsset.

(** A rewrite of the rows that keeps what a filter looks at commutes with
    the filter. *)
Lemma filter_fmap_stable {A} (Q : A → Prop) `{∀ x, Decision (Q x)} (g : A → A)
    (l : list A) :
  (∀ x, Q (g x) ↔ Q x) → filter Q (g <$> l) = g <$> filter Q l.
Proof.
  intros Hg. induction l as [|x l IH]; [done|].
  rewrite fmap_cons. destruct (decide (Q x)) as [HQ|HQ].
  - rewrite (filter_cons_True Q (g x)) by (by apply Hg).
    rewrite (filter_cons_True Q x) by done. by rewrite fmap_cons, IH.
  - rewrite (filter_cons_False Q (g x)) by (by rewrite Hg).
    by rewrite (filter_cons_False Q x).
Qed.

(** A chain of [.eq(..)] filters: the first condition, then the others. *)
Lemma filter_conj {A} (Q1 Q2 : A → Prop) `{∀ x, Decision (Q1 x)} `{∀ x, Decision (Q2 x)}
    (l : list A) :
  filter (λ x, Q1 x ∧ Q2 x) l = filter Q2 (filter Q1 l).
Proof.
  induction l as [|x l IH]; [done|].
  destruct (decide (Q1 x)) as [H1|H1].
  - rewrite (filter_cons_True Q1) by done.
    destruct (decide (Q2 x)) as [H2|H2].
    + rewrite !filter_cons_True by done. by rewrite IH.
    + rewrite !filter_cons_False by tauto. done.
  - rewrite !filter_cons_False by tauto. done.
Qed.

(** ** The version counter under a guarded rewrite of one row *)

Section VersionAfterUpdate.
Context (P : Asset.row → Prop) `{∀ a, Decision (P a)}.
Context (g : Asset.row → Asset.row) (Hid : ∀ x, Asset.id (g x) = Asset.id x).
Context (w : World) (Hpk : primary_key w).

Let rewritten : World :=
  set_asset ((λ x, if decide (P x) then g x else x) <$> asset w) w.

Lemma rewritten_keeps_ids :
  Asset.id <$> asset rewritten = Asset.id <$> asset w.
Proof.
  unfold rewritten. simpl. rewrite <- list_fmap_compose.
  apply list_fmap_ext. intros i x _. simpl. by case_decide.
Qed.

Lemma rewritten_primary_key : primary_key rewritten.
Proof. unfold primary_key. by rewrite rewritten_keeps_ids. Qed.

Lemma asset_version_rewritten a :
  a ∈ asset w → P a →
  asset_version rewritten (Asset.id a) = Some (Asset.version (g a)).
Proof.
  intros Hin HP. unfold asset_version, rewritten. simpl.
  rewrite filter_fmap_stable by (intros x; case_decide; by rewrite ?Hid).
  rewrite (filter_key Asset.id) by done. simpl.
  by rewrite decide_True.
Qed.

Lemma asset_version_not_rewritten aid :
  (∀ x, x ∈ asset w → P x → Asset.id x ≠ aid) →
  asset_version rewritten aid = asset_version w aid.
Proof.
  intros Hother. unfold asset_version, rewritten. simpl.
  rewrite filter_fmap_stable by (intros x; case_decide; by rewrite ?Hid).
  destruct (filter _ (asset w)) as [|x l] eqn:Hf; [done|]. simpl.
  assert (x ∈ filter (λ a, Asset.id a = aid) (asset w)) as Hx
    by (rewrite Hf; apply elem_of_cons; by left).
  apply list_elem_of_filter in Hx as [Hxid Hx].
  case_decide as HP; [|done]. by destruct (Hother x Hx HP).
Qed.
End VersionAfterUpdate.

(** ** renameAsset *)

Lemma renameAsset_no_row ctx u aid fn v now w :
  authenticated ctx u →
  filter (λ a, Asset.id a = aid ∧ Asset.owner_id a = u ∧ Asset.version a = v) (asset w)
  = [] →
  renameAsset ctx aid fn v now w = (w, inl (GraphQLError "Version conflict" "CONFLICT")).
Proof.
  intros Hauth Hno. unfold renameAsset. as_user Hauth.
  unfold bind, query. by rewrite update_asset_no_row.
Qed.

Lemma guarded_rows_of_row w a :
  primary_key w → a ∈ asset w →
  filter (λ x, Asset.id x = Asset.id a ∧ Asset.owner_id x = Asset.owner_id a
               ∧ Asset.version x = Asset.version a) (asset w) = [a].
Proof.
  intros Hpk Hin.
  rewrite filter_conj, (filter_key Asset.id) by done.
  by rewrite filter_cons_True, filter_nil.
Qed.

Lemma guarded_rows_stale w a u v :
  primary_key w → a ∈ asset w → v ≠ Asset.version a →
  filter (λ x, Asset.id x = Asset.id a ∧ Asset.owner_id x = u ∧ Asset.version x = v)
         (asset w) = [].
Proof.
  intros Hpk Hin Hv.
  rewrite filter_conj, (filter_key Asset.id) by done.
  rewrite filter_cons_False; [done|]. intros [_ Hv']. by apply Hv.
Qed.

Lemma renameAsset_owner_current ctx fn now w a :
  authenticated ctx (Asset.owner_id a) → primary_key w → a ∈ asset w →
  asset_fits a → Asset.version a < 2147483647 →
  let w' := set_asset
              ((λ x, if decide (Asset.id x = Asset.id a ∧ Asset.owner_id x = Asset.owner_id a
                                ∧ Asset.version x = Asset.version a)
                     then touch now (rename_patch fn (Asset.version a) x) else x)
                 <$> asset w) w in
  renameAsset ctx (Asset.id a) fn (Asset.version a) now w
  = (w', inr (node (touch now (rename_patch fn (Asset.version a) a)))).
Proof.
  intros Hauth Hpk Hin [Hsize [Hlo Hhi]] Hmax. simpl.
  unfold renameAsset. as_user Hauth. unfold bind, query.
  rewrite (update_asset_one_row _ _ _ _ a); [done|by apply guarded_rows_of_row|].
  split; simpl; [done|]. unfold int4. lia.
Qed.

(** At the largest [int] the ledger refuses the new version, and the
    resolver rethrows the ledger's error. *)
Lemma renameAsset_owner_at_largest_int ctx fn now w a :
  authenticated ctx (Asset.owner_id a) → primary_key w → a ∈ asset w →
  Asset.version a = 2147483647 →
  renameAsset ctx (Asset.id a) fn 2147483647 now w
  = (w, inl (PostgrestError "22003")).
Proof.
  intros Hauth Hpk Hin Hmax.
  unfold renameAsset. as_user Hauth. unfold bind, query.
  rewrite (update_asset_out_of_range _ _ _ _ a); [done| |].
  - rewrite <- Hmax. by apply guarded_rows_of_row.
  - intros [_ [_ Hhi]]. simpl in Hhi. lia.
Qed.

(** C10. A [renameAsset] whose guarded update matches no row (the asset
    does not exist, belongs to another user, or has another version) throws
    the version-conflict error with extension code [CONFLICT], whichever of
    the three is the reason, and writes nothing. *)
Theorem renameAsset_zero_rows_conflict ctx u assetId filename version now w :
  authenticated ctx u →
  filter (λ a, Asset.id a = assetId ∧ Asset.owner_id a = u ∧ Asset.version a = version)
         (asset w) = [] →
  renameAsset ctx assetId filename version now w
  = (w, inl (GraphQLError "Version conflict" "CONFLICT")).
Proof.
  intros Hauth Hzero. unfold renameAsset. as_user Hauth.
  unfold bind, query. by rewrite update_asset_no_row.
Qed.

(** An unknown asset, an asset of another user and a stale version, on the
    world where Alice's [asset-1] is at version 1. *)
Lemma renameAsset_zero_rows_conflict_witness :
  let conflict := inl (GraphQLError "Version conflict" "CONFLICT") in
  renameAsset Scenario.alice "missing" "x.jpg" 1 3000 Scenario.finalized
  = (Scenario.finalized, conflict)
  ∧ renameAsset Scenario.bob "asset-1" "x.jpg" 1 3000 Scenario.finalized
    = (Scenario.finalized, conflict)
  ∧ renameAsset Scenario.alice "asset-1" "x.jpg" 7 3000 Scenario.finalized
    = (Scenario.finalized, conflict).
Proof.
  intros conflict. split; [|split].
  - apply (renameAsset_zero_rows_conflict _ "user-a"); [by split | reflexivity].
  - apply (renameAsset_zero_rows_conflict _ "user-b"); [by split | reflexivity].
  - apply (renameAsset_zero_rows_conflict _ "user-a"); [by split | reflexivity].
Defined.

(** C5, as the ledger allows it. The owner renaming at the asset's current
    version, when that version is below the largest [int], gets the asset
    back with the new name and the version plus one, which is then the
    stored version; a rename presenting any other version of that asset
    throws the version conflict and leaves the world as it was. *)
Theorem renameAsset_version_guard ctx filename version now w a :
  authenticated ctx (Asset.owner_id a) → primary_key w → a ∈ asset w → asset_fits a →
  (version = Asset.version a → version < 2147483647 →
   ∃ w' n, renameAsset ctx (Asset.id a) filename version now w = (w', inr n)
           ∧ n_id n = Asset.id a ∧ n_filename n = filename
           ∧ n_version n = version + 1
           ∧ asset_version w' (Asset.id a) = Some (version + 1))
  ∧ (version ≠ Asset.version a →
     renameAsset ctx (Asset.id a) filename version now w
     = (w, inl (GraphQLError "Version conflict" "CONFLICT"))).
Proof.
  intros Hauth Hpk Hin Hfit. split.
  - intros -> Hmax. eexists _, _. split.
    { by apply renameAsset_owner_current. }
    repeat split.
    by rewrite (asset_version_rewritten _ (λ x, touch now (rename_patch filename _ x))).
  - intros Hv. apply (renameAsset_no_row _ (Asset.owner_id a)); [done|].
    by apply guarded_rows_stale.
Qed.

(** The scenario of the specification: [asset-1] at version 1 is renamed
    with version 1, then once more with version 1. *)
Lemma renameAsset_version_guard_witness :
  let first := renameAsset Scenario.alice "asset-1" "new.jpg" 1 3000 Scenario.finalized in
  (∃ n, first.2 = inr n ∧ n_version n = 2 ∧ asset_version first.1 "asset-1" = Some 2)
  ∧ renameAsset Scenario.alice "asset-1" "new.jpg" 1 3100 first.1
    = (first.1, inl (GraphQLError "Version conflict" "CONFLICT")).
Proof.
  set (a := Asset.mk "asset-1" "user-a" "photo.jpg" "image/jpeg" 1024
                     "user-a/asset-1/photo.jpg" (Some "cafebabe") Ready 1 1000 2000).
  set (a' := Asset.mk "asset-1" "user-a" "new.jpg" "image/jpeg" 1024
                      "user-a/asset-1/photo.jpg" (Some "cafebabe") Ready 2 1000 3000).
  split.
  - destruct (renameAsset_version_guard Scenario.alice "new.jpg" 1 3000 Scenario.finalized a)
      as [Hok _].
    + by split.
    + apply NoDup_singleton.
    + apply list_elem_of_singleton. reflexivity.
    + unfold asset_fits, int4. simpl. lia.
    + destruct Hok as (w' & n & Hrun & _ & _ & Hn & Hv); [reflexivity|lia|].
      simpl in Hrun. exists n. rewrite Hrun. simpl. by repeat split.
  - destruct (renameAsset_version_guard Scenario.alice "new.jpg" 1 3100
                (renameAsset Scenario.alice "asset-1" "new.jpg" 1 3000 Scenario.finalized).1 a')
      as [_ Hstale].
    + by split.
    + apply NoDup_singleton.
    + apply list_elem_of_singleton. reflexivity.
    + unfold asset_fits, int4. simpl. lia.
    + apply Hstale. simpl. lia.
Defined.

(** C5 as stated fails where the counter has reached the largest [int]:
    Alice owns [asset-1] and presents its current version 2147483647 (set by
    her [finalizeUpload] call), and the rename is refused by the ledger. *)
Lemma renameAsset_at_largest_int_refused :
  authenticated Scenario.alice "user-a"
  ∧ Asset.owner_id <$> asset Cases.maxed = ["user-a"]
  ∧ asset_version Cases.maxed "asset-1" = Some 2147483647
  ∧ renameAsset Scenario.alice "asset-1" "new.jpg" 2147483647 3000 Cases.maxed
    = (Cases.maxed, inl (PostgrestError "22003")).
Proof. split; [by split|]. split; [reflexivity|]. split; reflexivity. Qed.

(** ** createUploadUrl *)

Lemma draft_row_shape u filename mime size assetId now :
  let a := draft_row u filename mime size assetId now in
  Asset.id a = assetId ∧ Asset.owner_id a = u ∧ Asset.status a = Draft
  ∧ Asset.version a = 1 ∧ Asset.sha256 a = None.
Proof. done. Qed.

Lemma ticket_row_shape u filename mime size assetId nonce now :
  let t := ticket_row u filename mime size assetId nonce now in
  Ticket.asset_id t = assetId ∧ Ticket.user_id t = u ∧ Ticket.used t = false
  ∧ Ticket.expires_at t = now + 600000
  ∧ Ticket.storage_path t
    = Asset.storage_path (draft_row u filename mime size assetId now).
Proof. done. Qed.

(** The outcomes of an issuance by the user [u]: nothing is written; or the
    asset row alone is written and the call throws; or both rows are
    written, and only then can the call return. *)
Lemma createUploadUrl_outcomes ctx u filename mime size assetId nonce now w :
  authenticated ctx u →
  let a := draft_row u filename mime size assetId now in
  let t := ticket_row u filename mime size assetId nonce now in
  let r := createUploadUrl ctx filename mime size assetId nonce now w in
  (r.1 = w ∧ returned r.2 = false
   ∧ (mime ∈ ALLOWED_MIMES → error (insert_asset a w).2 ≠ None))
  ∨ (r.1 = set_asset (asset w ++ [a]) w ∧ returned r.2 = false
     ∧ error (insert_asset a w).2 = None
     ∧ error (insert_ticket t (set_asset (asset w ++ [a]) w)).2 ≠ None)
  ∨ (r.1 = set_upload_ticket (upload_ticket w ++ [t]) (set_asset (asset w ++ [a]) w)
     ∧ error (insert_asset a w).2 = None
     ∧ error (insert_ticket t (set_asset (asset w ++ [a]) w)).2 = None).
Proof.
  intros Hauth a t r. subst r. unfold createUploadUrl. as_user Hauth.
  case_bool_decide as Hmime; [|left; by repeat split].
  unfold bind, query. subst a t. unfold draft_row, ticket_row, TEN_MINUTES.
  destruct (insert_asset _ w) as [w1 ra] eqn:Ha.
  unfold insert_asset in Ha. repeat case_bool_decide; simplify_eq; cbn [error failed fst snd];
    try (left; by repeat split).
  destruct (insert_ticket _ _) as [w2 rt] eqn:Ht.
  unfold insert_ticket in Ht. repeat case_bool_decide; simplify_eq; cbn [error failed fst snd];
    try (right; left; by repeat split).
  right; right. cbn.
  destruct (createSignedUploadUrl _ _) as [[?|] [?|]]; cbn; by repeat split.
Qed.

Lemma insert_asset_done r w :
  error (insert_asset r w).2 = None →
  insert_asset r w = (set_asset (asset w ++ [r]) w, mkResponse None None).
Proof. unfold insert_asset. by repeat case_bool_decide. Qed.

Lemma insert_asset_fresh_id r w :
  error (insert_asset r w).2 = None → Forall (λ a, Asset.id a ≠ Asset.id r) (asset w).
Proof.
  unfold insert_asset. repeat case_bool_decide; try done. intros _.
  apply Forall_forall. intros a Ha Hid.
  match goal with Hno : ¬ Exists _ _ |- _ => apply Hno end.
  apply Exists_exists. exists a. by split; [|left].
Qed.

(** C6, as the two inserts behave. An issuance by [u] that returns has
    written the draft asset row (version 1) and the unused ticket row
    (expiring ten minutes after [now]); a ticket row is never written without
    its asset row; when the asset insert is refused nothing is written; when
    the ticket insert is refused after the asset insert, the call throws and
    the draft asset row stays, without a ticket. *)
Theorem createUploadUrl_two_writes ctx u filename mime size assetId nonce now w :
  authenticated ctx u →
  let a := draft_row u filename mime size assetId now in
  let t := ticket_row u filename mime size assetId nonce now in
  let r := createUploadUrl ctx filename mime size assetId nonce now w in
  (accepted r → asset r.1 = asset w ++ [a] ∧ upload_ticket r.1 = upload_ticket w ++ [t])
  ∧ (upload_ticket r.1 = upload_ticket w
     ∨ asset r.1 = asset w ++ [a] ∧ upload_ticket r.1 = upload_ticket w ++ [t])
  ∧ (error (insert_asset a w).2 ≠ None → r.1 = w ∧ ¬ accepted r)
  ∧ (mime ∈ ALLOWED_MIMES → error (insert_asset a w).2 = None →
     error (insert_ticket t (insert_asset a w).1).2 ≠ None →
     asset r.1 = asset w ++ [a] ∧ upload_ticket r.1 = upload_ticket w ∧ ¬ accepted r).
Proof.
  intros Hauth a t r.
  destruct (createUploadUrl_outcomes ctx u filename mime size assetId nonce now w Hauth)
    as [(Hw & Hr & Ha)|[(Hw & Hr & Ha & Ht)|(Hw & Ha & Ht)]];
    fold a t r in Hw, Ha; try fold a t r in Hr; try fold a t in Ht;
    unfold accepted; rewrite Hw; (split; [|split; [|split]]).
  - by rewrite Hr.
  - by left.
  - by rewrite Hr.
  - intros Hmime Hok. by destruct (Ha Hmime).
  - by rewrite Hr.
  - by left.
  - by rewrite Ha.
  - by rewrite Hr.
  - done.
  - by right.
  - by rewrite Ha.
  - intros _ _. rewrite (insert_asset_done a w Ha). simpl. by rewrite Ht.
Qed.

(** The first issuance of the scenario writes both rows. *)
Lemma createUploadUrl_two_writes_witness :
  asset Scenario.issued
  = [draft_row "user-a" "photo.jpg" "image/jpeg" 1024 "asset-1" 1000]
  ∧ upload_ticket Scenario.issued
    = [ticket_row "user-a" "photo.jpg" "image/jpeg" 1024 "asset-1" "nonce-1" 1000].
Proof.
  destruct (createUploadUrl_two_writes Scenario.alice "user-a" "photo.jpg" "image/jpeg"
              1024 "asset-1" "nonce-1" 1000 Scenario.empty) as [Hboth _].
  - by split.
  - apply Hboth. reflexivity.
Defined.

(** C6 as stated fails: the nonce drawn for a second issuance is the one of
    [asset-1]'s ticket, the ticket insert is refused, and [asset-2] is left
    in [draft] with no ticket. *)
Lemma createUploadUrl_leaves_draft_without_ticket :
  let r := createUploadUrl Scenario.alice "b.png" "image/png" 10 "asset-2" "nonce-1" 1500
                           Scenario.issued in
  r.2 = inl (PostgrestError "23505")
  ∧ (∃ a, a ∈ asset r.1 ∧ Asset.id a = "asset-2" ∧ Asset.status a = Draft)
  ∧ Forall (λ t, Ticket.asset_id t ≠ "asset-2") (upload_ticket r.1).
Proof.
  split; [reflexivity|]. split.
  - exists (draft_row "user-a" "b.png" "image/png" 10 "asset-2" 1500).
    split; [|by split]. apply elem_of_cons. right. by apply list_elem_of_singleton.
  - by apply (bool_decide_unpack _).
Qed.

(** ** The version counter across the mutations *)

Lemma asset_version_same_rows w w' aid :
  asset w' = asset w → asset_version w' aid = asset_version w aid.
Proof. unfold asset_version. by intros ->. Qed.

Lemma asset_version_inserted w w' a aid :
  asset w' = asset w ++ [a] →
  Forall (λ x, Asset.id x ≠ Asset.id a) (asset w) →
  asset_version w' aid
  = if decide (aid = Asset.id a) then Some (Asset.version a) else asset_version w aid.
Proof.
  intros Hrows Hfresh. unfold asset_version. rewrite Hrows, filter_app.
  case_decide as Haid.
  - subst aid. rewrite (filter_none _ (asset w)) by done.
    by rewrite filter_cons_True.
  - rewrite (filter_cons_False _ a) by (intros ?; by apply Haid).
    by rewrite filter_nil, app_nil_r.
Qed.

Lemma shareAsset_keeps_assets ctx assetId toEmail canDownload version shareId now w :
  asset (shareAsset ctx assetId toEmail canDownload version shareId now w).1 = asset w.
Proof.
  unfold shareAsset, bind, requireAuth, gets, query, rethrow, throw, ret.
  unfold upsert_share.
  destruct (userId ctx) as [u|]; [case_bool_decide|]; simpl; try done.
  repeat (case_match; simplify_eq; simpl; try done).
Qed.

Lemma revokeShare_keeps_assets ctx assetId toEmail version w :
  asset (revokeShare ctx assetId toEmail version w).1 = asset w.
Proof.
  unfold revokeShare, bind, requireAuth, gets, modify, rethrow, throw, ret.
  destruct (userId ctx) as [u|]; [case_bool_decide|]; simpl; try done.
  repeat (case_match; simplify_eq; simpl; try done).
Qed.

(** A rename that returns has rewritten the one row its guard selects. *)
Lemma renameAsset_accepted_inv ctx assetId filename version now w :
  accepted (renameAsset ctx assetId filename version now w) →
  ∃ u a,
    authenticated ctx u
    ∧ filter (λ x, Asset.id x = assetId ∧ Asset.owner_id x = u ∧ Asset.version x = version)
             (asset w) = [a]
    ∧ (renameAsset ctx assetId filename version now w).1
      = set_asset
          ((λ x, if decide (Asset.id x = assetId ∧ Asset.owner_id x = u
                            ∧ Asset.version x = version)
                 then touch now (rename_patch filename version x) else x) <$> asset w) w.
Proof.
  unfold accepted, renameAsset, bind, requireAuth, query, rethrow, throw, ret.
  destruct (userId ctx) as [u|] eqn:Hu; [case_bool_decide as Hne|]; simpl; try done.
  unfold update_asset.
  destruct (filter _ (asset w)) as [|a [|b l]] eqn:Hf; simpl;
    repeat case_bool_decide; simpl; try done.
  intros _. exists u, a. by repeat split.
Qed.

(** A creation that returns has appended the draft row under a fresh id. *)
Lemma createUploadUrl_accepted_inv ctx filename mime size assetId nonce now w :
  accepted (createUploadUrl ctx filename mime size assetId nonce now w) →
  ∃ u,
    asset (createUploadUrl ctx filename mime size assetId nonce now w).1
    = asset w ++ [draft_row u filename mime size assetId now]
    ∧ Forall (λ x, Asset.id x ≠ assetId) (asset w).
Proof.
  intros Hacc.
  assert (∃ u, authenticated ctx u) as [u Hauth].
  { revert Hacc. unfold accepted, createUploadUrl, bind, requireAuth, throw.
    destruct (userId ctx) as [u|] eqn:Hu; [case_bool_decide|]; simpl; try done.
    intros _. by exists u. }
  exists u. unfold accepted in Hacc.
  destruct (createUploadUrl_outcomes ctx u filename mime size assetId nonce now w Hauth)
    as [(_ & Hr & _)|[(_ & Hr & _)|(Hw & Ha & _)]]; try congruence.
  rewrite Hw. split; [done|].
  by apply (insert_asset_fresh_id (draft_row u filename mime size assetId now)).
Qed.

(** A share that returns has passed the guard, found the recipient, and had
    its grant row taken by the ledger. *)
Lemma shareAsset_accepted_inv ctx assetId toEmail canDownload version shareId now w :
  accepted (shareAsset ctx assetId toEmail canDownload version shareId now w) →
  ∃ u a usr,
    authenticated ctx u
    ∧ filter (λ x, Asset.id x = assetId ∧ Asset.owner_id x = u
                   ∧ Asset.version x = version) (asset w) = [a]
    ∧ filter (λ x, User.email x = toEmail) (users w) = [usr]
    ∧ error (upsert_share (Share.mk shareId assetId (User.id usr) canDownload now) w).2
      = None
    ∧ (shareAsset ctx assetId toEmail canDownload version shareId now w).1
      = (upsert_share (Share.mk shareId assetId (User.id usr) canDownload now) w).1.
Proof.
  unfold accepted, shareAsset, bind, requireAuth, gets, query, rethrow, throw, ret,
    guarded_asset, user_by_email.
  destruct (userId ctx) as [u|] eqn:Hu; [case_bool_decide as Hne|]; simpl; try done.
  destruct (filter _ (asset w)) as [|a [|b l]] eqn:Hf; simpl; try done.
  destruct (filter _ (users w)) as [|usr [|usr' l']] eqn:Hg; simpl; try done.
  destruct (upsert_share _ w) as [w1 rs] eqn:Hup. simpl.
  destruct (error rs) eqn:He; simpl; [done|].
  intros _. exists u, a, usr. rewrite Hup. simpl.
  split; [by split|]. do 3 (split; [done|]). by destruct (data rs).
Qed.

(** A revoke that returns has passed the guard, found the recipient, and
    deleted the grants of the asset to the recipient. *)
Lemma revokeShare_accepted_inv ctx assetId toEmail version w :
  accepted (revokeShare ctx assetId toEmail version w) →
  ∃ u a usr,
    authenticated ctx u
    ∧ filter (λ x, Asset.id x = assetId ∧ Asset.owner_id x = u
                   ∧ Asset.version x = version) (asset w) = [a]
    ∧ filter (λ x, User.email x = toEmail) (users w) = [usr]
    ∧ (revokeShare ctx assetId toEmail version w).1
      = set_asset_share
          (filter (λ s, ¬ (Share.asset_id s = assetId ∧ Share.to_user s = User.id usr))
                  (asset_share w)) w.
Proof.
  unfold accepted, revokeShare, bind, requireAuth, gets, modify, rethrow, throw, ret,
    guarded_asset, user_by_email.
  destruct (userId ctx) as [u|] eqn:Hu; [case_bool_decide as Hne|]; simpl; try done.
  destruct (filter _ (asset w)) as [|a [|b l]] eqn:Hf; simpl; try done.
  destruct (filter _ (users w)) as [|usr [|usr' l']] eqn:Hg; simpl; try done.
  intros _. exists u, a, usr. split; [by split|]. by split; [|split].
Qed.

(** Under the primary key, the row the version guard selects carries the
    version the ledger holds for its id. *)
Lemma guard_passed_version w assetId u version a :
  primary_key w →
  filter (λ x, Asset.id x = assetId ∧ Asset.owner_id x = u ∧ Asset.version x = version)
         (asset w) = [a] →
  asset_version w assetId = Some version.
Proof.
  intros Hpk Hguard.
  assert (a ∈ filter (λ x, Asset.id x = assetId ∧ Asset.owner_id x = u
                           ∧ Asset.version x = version) (asset w)) as Hin
    by (rewrite Hguard; by apply list_elem_of_singleton).
  apply list_elem_of_filter in Hin as [(<- & _ & <-) Hin].
  unfold asset_version. by rewrite (filter_key Asset.id).
Qed.

(** The versions after an accepted mutation, and what its acceptance says
    of the version before it. *)
Lemma accepted_mutation_versions m w :
  primary_key w → (run m w).2 = true →
  (∀ aid, asset_version (run m w).1 aid = version_after m w aid)
  ∧ match m with
    | Create _ _ _ _ assetId _ _ => asset_version w assetId = None
    | Rename _ assetId _ version _ | ShareWith _ assetId _ _ version _ _
    | Revoke _ assetId _ version => asset_version w assetId = Some version
    end.
Proof.
  intros Hpk Hacc.
  destruct m as [ctx fn mime size assetId nonce now|ctx assetId fn v now
                 |ctx assetId toEmail cd v shareId now|ctx assetId toEmail v];
    simpl in *.
  - apply createUploadUrl_accepted_inv in Hacc as (u & Hrows & Hfresh). split.
    + intros aid.
      by rewrite (asset_version_inserted w _ (draft_row u fn mime size assetId now)).
    + unfold asset_version. by rewrite filter_none.
  - apply renameAsset_accepted_inv in Hacc as (u & a & Hauth & Hf & ->).
    assert (a ∈ asset w ∧ Asset.id a = assetId ∧ Asset.owner_id a = u
            ∧ Asset.version a = v) as (Hin & <- & <- & <-).
    { assert (a ∈ filter (λ x, Asset.id x = assetId ∧ Asset.owner_id x = u
                               ∧ Asset.version x = v) (asset w)) as Ha
        by (rewrite Hf; by apply list_elem_of_singleton).
      apply list_elem_of_filter in Ha. tauto. }
    assert (asset_version w (Asset.id a) = Some (Asset.version a)) as Hcur.
    { unfold asset_version. by rewrite (filter_key Asset.id). }
    split; [|done]. intros aid. case_decide as Haid.
    + subst aid. rewrite Hcur. simpl.
      by rewrite (asset_version_rewritten _
                    (λ x, touch now (rename_patch fn (Asset.version a) x))).
    + apply (asset_version_not_rewritten _
               (λ x, touch now (rename_patch fn (Asset.version a) x))); [done|].
      intros x Hx (Hxid & _) Heq. apply Haid. by rewrite <- Heq.
  - apply shareAsset_accepted_inv in Hacc as (u & a & usr & _ & Hguard & _).
    split; [|by apply (guard_passed_version w assetId u v a)]. intros aid.
    apply asset_version_same_rows, shareAsset_keeps_assets.
  - apply revokeShare_accepted_inv in Hacc as (u & a & usr & _ & Hguard & _).
    split; [|by apply (guard_passed_version w assetId u v a)]. intros aid.
    apply asset_version_same_rows, revokeShare_keeps_assets.
Qed.




(** ** The ledger invariants in every reachable world *)

Section UpdateKeepsLedger.
Context (P : Asset.row → Prop) `{∀ a, Decision (P a)}.
Context (patch : Asset.row → Asset.row) (Hid : ∀ x, Asset.id (patch x) = Asset.id x).
Context (now : Z) (w : World).

Lemma update_asset_keeps_ids :
  Asset.id <$> asset (update_asset P patch now w).1 = Asset.id <$> asset w.
Proof.
  unfold update_asset. case_bool_decide; [|done].
  destruct (_ <$> filter P (asset w)) as [|a' [|? ?]]; simpl; try done.
  rewrite <- list_fmap_compose. apply list_fmap_ext. intros i x _. simpl.
  case_decide; [|done]. apply Hid.
Qed.

Lemma update_asset_keeps_fits :
  Forall asset_fits (asset w) → Forall asset_fits (asset (update_asset P patch now w).1).
Proof.
  intros Hfits. unfold update_asset. case_bool_decide as Hwritten; [|done].
  destruct (_ <$> filter P (asset w)) as [|a' [|? ?]] eqn:Hrows; simpl; try done.
  apply Forall_fmap, Forall_forall. intros x Hx. simpl.
  case_decide as HP; [|by eapply Forall_forall in Hfits].
  eapply Forall_forall in Hwritten; [done|].
  rewrite <- Hrows. apply (list_elem_of_fmap_2 (λ a, touch now (patch a))).
  by apply list_elem_of_filter.
Qed.

Lemma update_asset_ledger_ok : ledger_ok w → ledger_ok (update_asset P patch now w).1.
Proof.
  intros [Hpk Hfits]. split; [|by apply update_asset_keeps_fits].
  unfold primary_key. by rewrite update_asset_keeps_ids.
Qed.
End UpdateKeepsLedger.

Lemma ledger_ok_same_rows w w' : asset w' = asset w → ledger_ok w → ledger_ok w'.
Proof. unfold ledger_ok, primary_key. by intros ->. Qed.

Lemma insert_asset_ledger_ok r w : ledger_ok w → ledger_ok (insert_asset r w).1.
Proof.
  intros [Hpk Hfits]. unfold insert_asset.
  case_bool_decide as Hfit; [|done]. case_bool_decide as Hdup; [done|]. simpl.
  split.
  - unfold primary_key. simpl. rewrite fmap_app. apply NoDup_app.
    split; [done|]. split; [|apply NoDup_singleton].
    intros i Hi Hr. apply list_elem_of_singleton in Hr. subst i.
    apply list_elem_of_fmap in Hi as (a & Ha & Hin).
    apply Hdup, Exists_exists. exists a. split; [done|]. by left.
  - simpl. apply Forall_app. split; [done|]. by apply Forall_singleton.
Qed.

Lemma createUploadUrl_ledger_ok ctx filename mime size assetId nonce now w :
  ledger_ok w → ledger_ok (createUploadUrl ctx filename mime size assetId nonce now w).1.
Proof.
  intros Hok.
  unfold createUploadUrl, bind, requireAuth, gets, query, rethrow, throw, ret.
  destruct (userId ctx) as [u|]; [case_bool_decide|]; simpl; try done.
  case_bool_decide; [|done].
  pose proof (insert_asset_ledger_ok
                (Asset.mk assetId u filename mime size
                   (u +:+ "/" +:+ assetId +:+ "/" +:+ sanitizeFilename filename)
                   None Draft 1 now now) w Hok) as Hok1.
  destruct (insert_asset _ w) as [w1 ra]. simpl in *.
  destruct (error ra); [done|].
  assert (∀ t, ledger_ok (insert_ticket t w1).1) as Hok2.
  { intros t. apply (ledger_ok_same_rows w1); [|done].
    unfold insert_ticket. by repeat case_bool_decide. }
  specialize (Hok2 (Ticket.mk assetId u nonce mime size
                      (u +:+ "/" +:+ assetId +:+ "/" +:+ sanitizeFilename filename)
                      (now + TEN_MINUTES) false)).
  destruct (insert_ticket _ w1) as [w2 rt]. simpl in *.
  destruct (error rt); [done|].
  destruct (error (createSignedUploadUrl _ _)); [done|].
  by destruct (data (createSignedUploadUrl _ _)).
Qed.

Lemma renameAsset_ledger_ok ctx assetId filename version now w :
  ledger_ok w → ledger_ok (renameAsset ctx assetId filename version now w).1.
Proof.
  intros Hok. unfold renameAsset, bind, requireAuth, query, rethrow, throw, ret.
  destruct (userId ctx) as [u|]; [case_bool_decide|]; simpl; try done.
  pose proof (update_asset_ledger_ok
                (λ a, Asset.id a = assetId ∧ Asset.owner_id a = u
                      ∧ Asset.version a = version)
                (rename_patch filename version) (λ _, eq_refl) now w Hok) as Hok1.
  destruct (update_asset _ _ now w) as [w1 r]. simpl in *.
  destruct (error r); [by case_bool_decide|]. by destruct (data r).
Qed.

Lemma finalizeUpload_ledger_ok ctx assetId clientSha256 version now w :
  ledger_ok w → ledger_ok (finalizeUpload ctx assetId clientSha256 version now w).1.
Proof.
  intros Hok. unfold finalizeUpload, bind, requireAuth, gets, modify, query, rethrow,
    throw, ret.
  destruct (userId ctx) as [u|]; [case_bool_decide|]; simpl; try done.
  destruct (error (single _)); [done|]. destruct (data (single _)); [|done].
  match goal with
  | |- context [update_asset ?P ?f now ?w1] =>
    pose proof (update_asset_ledger_ok P f (λ _, eq_refl) now w1
                  (ledger_ok_same_rows w w1 eq_refl Hok)) as Hok1;
    destruct (update_asset P f now w1) as [w2 res]
  end.
  simpl in *. destruct (error res); [done|]. by destruct (data res).
Qed.

Lemma getDownloadUrl_keeps_assets ctx assetId accessToken auditId now w :
  asset (getDownloadUrl ctx assetId accessToken auditId now w).1 = asset w.
Proof.
  unfold getDownloadUrl, bind, requireAuth, gets, modify, query, rethrow, throw, ret,
    insert_audit.
  destruct (userId ctx) as [u|]; [case_bool_decide|]; simpl; try done.
  repeat (case_match; simplify_eq; simpl; try done).
Qed.

Lemma validateDownloadToken_keeps_assets ctx accessToken now w :
  asset (validateDownloadToken ctx accessToken now w).1 = asset w.
Proof.
  unfold validateDownloadToken, bind, requireAuth, gets, modify, throw, ret.
  destruct (userId ctx) as [u|]; [case_bool_decide|]; simpl; try done.
  repeat (case_match; simplify_eq; simpl; try done).
Qed.

Lemma run_ledger_ok m w : ledger_ok w → ledger_ok (run m w).1.
Proof.
  intros Hok. destruct m; simpl.
  - by apply createUploadUrl_ledger_ok.
  - by apply renameAsset_ledger_ok.
  - apply (ledger_ok_same_rows w); [apply shareAsset_keeps_assets|done].
  - apply (ledger_ok_same_rows w); [apply revokeShare_keeps_assets|done].
Qed.

(** Every world the resolvers bring about has its [asset] primary key and
    its [int] columns in order. *)
Lemma reachable_ledger_ok w : reachable w → ledger_ok w.
Proof.
  induction 1 as [w Hempty|m w _ IH|ctx aid h v now w _ IH|ctx aid tok au now w _ IH
                  |ctx tok now w _ IH|now w _ IH].
  - unfold ledger_ok, primary_key. rewrite Hempty. split; constructor.
  - by apply run_ledger_ok.
  - by apply finalizeUpload_ledger_ok.
  - apply (ledger_ok_same_rows w); [apply getDownloadUrl_keeps_assets|done].
  - apply (ledger_ok_same_rows w); [apply validateDownloadToken_keeps_assets|done].
  - by apply (ledger_ok_same_rows w).
Qed.

(** A mutation, accepted or refused, leaves the version of an asset where
    it was or moves it up by one. *)
Lemma run_version_step m w aid v :
  primary_key w → asset_version w aid = Some v →
  asset_version (run m w).1 aid = Some v ∨ asset_version (run m w).1 aid = Some (v + 1).
Proof.
  intros Hpk Hv.
  destruct ((run m w).2) eqn:Hacc.
  - destruct (accepted_mutation_versions m w Hpk Hacc) as [Hafter Hbefore].
    rewrite Hafter.
    destruct m as [ctx fn mime size assetId nonce now|ctx assetId fn v' now
                   |ctx assetId toEmail cd v' shareId now|ctx assetId toEmail v'];
      simpl in *; try (by left).
    + case_decide; [|by left]. subst aid. congruence.
    + case_decide; [|by left]. rewrite Hv. by right.
  - left. rewrite <- Hv.
    destruct m as [ctx fn mime size assetId nonce now|ctx assetId fn v' now
                   |ctx assetId toEmail cd v' shareId now|ctx assetId toEmail v'];
      simpl in *.
    + destruct (userId ctx) as [u|] eqn:Hu;
        [destruct (decide (u = "")) as [->|Hne]|].
      * apply asset_version_same_rows.
        unfold createUploadUrl, bind, requireAuth. by rewrite Hu.
      * destruct (createUploadUrl_outcomes ctx u fn mime size assetId nonce now w)
          as [(Hw & _)|[(Hw & _ & Ha & _)|(Hw & Ha & _)]]; [done| | |].
        -- by rewrite Hw.
        -- rewrite (asset_version_inserted w _ (draft_row u fn mime size assetId now));
             [|by rewrite Hw|by apply (insert_asset_fresh_id (draft_row _ _ _ _ _ _))].
           case_decide as Haid; [|done]. exfalso. subst aid.
           apply insert_asset_fresh_id in Ha. revert Hv. unfold asset_version.
           by rewrite filter_none.
        -- rewrite (asset_version_inserted w _ (draft_row u fn mime size assetId now));
             [|by rewrite Hw|by apply (insert_asset_fresh_id (draft_row _ _ _ _ _ _))].
           case_decide as Haid; [|done]. exfalso. subst aid.
           apply insert_asset_fresh_id in Ha. revert Hv. unfold asset_version.
           by rewrite filter_none.
      * apply asset_version_same_rows.
        unfold createUploadUrl, bind, requireAuth. by rewrite Hu.
    + apply asset_version_same_rows. revert Hacc.
      unfold renameAsset, bind, requireAuth, query, rethrow, throw, ret.
      destruct (userId ctx) as [u|]; [case_bool_decide|]; simpl; try done.
      pose proof (update_asset_error
                    (λ a, Asset.id a = assetId ∧ Asset.owner_id a = u
                          ∧ Asset.version a = v')
                    (rename_patch fn v') now w) as Herr.
      pose proof (update_asset_no_data
                    (λ a, Asset.id a = assetId ∧ Asset.owner_id a = u
                          ∧ Asset.version a = v')
                    (rename_patch fn v') now w) as Hnone.
      destruct (update_asset _ _ now w) as [w1 r]. simpl in *.
      destruct (error r) as [e|] eqn:He.
      * rewrite Herr by done. by case_bool_decide.
      * destruct (data r) eqn:Hd; [done|]. by rewrite Hnone.
    + apply asset_version_same_rows, shareAsset_keeps_assets.
    + apply asset_version_same_rows, revokeShare_keeps_assets.
Qed.

(** Along any run of creations, renames, shares and revokes, the version of
    an asset only grows, by at most one per mutation. *)
Lemma run_all_versions ms : ∀ w aid v,
  ledger_ok w → asset_version w aid = Some v →
  ∃ v', asset_version (run_all ms w) aid = Some v' ∧ v ≤ v' ≤ v + Z.of_nat (length ms).
Proof.
  induction ms as [|m ms IH]; intros w aid v Hok Hv; simpl.
  - exists v. split; [done|lia].
  - destruct (run_version_step m w aid v) as [Hstep|Hstep]; [apply Hok|done| |];
      destruct (IH _ aid _ (run_ledger_ok m w Hok) Hstep) as (v' & Hv' & Hle);
      exists v'; (split; [done|lia]).
Qed.

(** ** validateDownloadToken *)

Lemma validateDownloadToken_cases ctx u token now w :
  authenticated ctx u →
  validateDownloadToken ctx token now w
  = match urlAccessCache w !! token with
    | None => (w, inl (GraphQLError "Invalid or expired access token" "FORBIDDEN"))
    | Some e =>
      if bool_decide (ce_userId e ≠ u) then
        (w, inl (GraphQLError "Access denied" "FORBIDDEN"))
      else if bool_decide (ce_expiresAt e < now) then
        (set_urlAccessCache (delete token (urlAccessCache w)) w,
         inl (GraphQLError "Token expired" "FORBIDDEN"))
      else
        (set_urlAccessCache (delete token (urlAccessCache w)) w,
         inr (mkTokenValidation true (ce_assetId e)))
    end.
Proof.
  intros Hauth. unfold validateDownloadToken. as_user Hauth.
  unfold bind, gets. destruct (urlAccessCache w !! token) as [e|]; [|done].
  by repeat case_bool_decide.
Qed.

(** Whoever calls it, a validation only ever removes the entry it looks up. *)
Lemma validateDownloadToken_cache ctx token now w :
  urlAccessCache (validateDownloadToken ctx token now w).1 = urlAccessCache w
  ∨ urlAccessCache (validateDownloadToken ctx token now w).1
    = delete token (urlAccessCache w).
Proof.
  unfold validateDownloadToken, bind, requireAuth, gets, modify, throw, ret.
  destruct (userId ctx) as [u|]; [case_bool_decide|]; simpl; try by left.
  destruct (urlAccessCache w !! token) as [e|]; [|by left].
  repeat case_bool_decide; simpl; (by left) || (by right).
Qed.

Lemma validateDownloadToken_accepted_deletes ctx token now w :
  accepted (validateDownloadToken ctx token now w) →
  urlAccessCache (validateDownloadToken ctx token now w).1 !! token = None.
Proof.
  unfold accepted, validateDownloadToken, bind, requireAuth, gets, modify, throw, ret.
  destruct (userId ctx) as [u|]; [case_bool_decide|]; simpl; try done.
  destruct (urlAccessCache w !! token) as [e|]; [|done].
  repeat case_bool_decide; simpl; try done. intros _. apply lookup_delete_eq.
Qed.

Lemma validateDownloadToken_absent ctx token now w :
  urlAccessCache w !! token = None →
  returned (validateDownloadToken ctx token now w).2 = false.
Proof.
  intros Hnone.
  unfold validateDownloadToken, bind, requireAuth, gets, modify, throw, ret.
  destruct (userId ctx) as [u|]; [case_bool_decide|]; simpl; try done.
  by rewrite Hnone.
Qed.

Lemma validateDownloadToken_keeps_absent ctx token' token now w :
  urlAccessCache w !! token = None →
  urlAccessCache (validateDownloadToken ctx token' now w).1 !! token = None.
Proof.
  intros Hnone.
  destruct (validateDownloadToken_cache ctx token' now w) as [-> | ->]; [done|].
  rewrite lookup_delete. by case_decide.
Qed.

Lemma sweep_keeps_absent now token w :
  urlAccessCache w !! token = None → urlAccessCache (sweep now w) !! token = None.
Proof.
  intros Hnone. unfold sweep. simpl.
  apply map_lookup_filter_None. by left.
Qed.

(** Once the token is gone, no validation of it succeeds any more. *)
Lemma successes_absent token events : ∀ w,
  urlAccessCache w !! token = None → successes token events w = 0%nat.
Proof.
  induction events as [|[ctx t now|now] events IH]; intros w Hnone; simpl; [done| |].
  - rewrite IH by (by apply validateDownloadToken_keeps_absent).
    destruct (decide (t = token)) as [->|Hne].
    + by rewrite validateDownloadToken_absent.
    + by rewrite (bool_decide_eq_false_2 _ Hne), andb_false_r.
  - by apply IH, sweep_keeps_absent.
Qed.

Lemma successes_at_most_once token events : ∀ w, (successes token events w ≤ 1)%nat.
Proof.
  induction events as [|[ctx t now|now] events IH]; intros w; simpl; [lia| |done].
  destruct (returned _ && bool_decide (t = token)) eqn:Hok.
  - apply andb_true_iff in Hok as [Hacc Ht]. apply bool_decide_eq_true in Ht as ->.
    rewrite successes_absent; [lia|].
    by apply validateDownloadToken_accepted_deletes.
  - specialize (IH (validateDownloadToken ctx t now w).1). lia.
Qed.

(** C7. For a caller [u]: a validation that succeeds found an entry of [u]
    that is not past its expiry, deleted it and returned its asset id, and
    such an entry always validates; a token that is absent, stored for
    another caller or past its expiry fails [FORBIDDEN]; after a success any
    further validation of the token fails [FORBIDDEN]; and along any run of
    validations and sweeps the token is validated at most once. *)
Theorem validateDownloadToken_single_use ctx u token now w :
  authenticated ctx u →
  let r := validateDownloadToken ctx token now w in
  (∀ tv, r.2 = inr tv →
     ∃ e, urlAccessCache w !! token = Some e ∧ ce_userId e = u ∧ now ≤ ce_expiresAt e
          ∧ tv = mkTokenValidation true (ce_assetId e)
          ∧ urlAccessCache r.1 = delete token (urlAccessCache w))
  ∧ (∀ e, urlAccessCache w !! token = Some e → ce_userId e = u → now ≤ ce_expiresAt e →
          r.2 = inr (mkTokenValidation true (ce_assetId e)))
  ∧ (urlAccessCache w !! token = None → fails_with "FORBIDDEN" r)
  ∧ (∀ e, urlAccessCache w !! token = Some e →
          ce_userId e ≠ u ∨ ce_expiresAt e < now → fails_with "FORBIDDEN" r)
  ∧ (accepted r →
     ∀ ctx' u' now', authenticated ctx' u' →
                     fails_with "FORBIDDEN" (validateDownloadToken ctx' token now' r.1))
  ∧ (∀ events, successes token events w ≤ 1)%nat.
Proof.
  intros Hauth r. subst r. rewrite (validateDownloadToken_cases ctx u) by done.
  repeat split.
  - intros tv. destruct (urlAccessCache w !! token) as [e|]; [|done].
    repeat case_bool_decide; simpl; try done.
    intros [= <-]. exists e.
    split; [done|]. split; [by destruct (decide (ce_userId e = u))|].
    split; [lia|done].
  - intros e -> Hu Hnow.
    rewrite bool_decide_eq_false_2 by (by intros ?).
    by rewrite bool_decide_eq_false_2 by lia.
  - intros ->. by eexists.
  - intros e -> [Hu|Hnow].
    + rewrite bool_decide_eq_true_2 by done. by eexists.
    + case_bool_decide; [by eexists|].
      rewrite bool_decide_eq_true_2 by done. by eexists.
  - intros Hacc ctx' u' now' Hauth'.
    rewrite <- (validateDownloadToken_cases ctx u) in * by done.
    rewrite (validateDownloadToken_cases ctx' u') by done.
    rewrite validateDownloadToken_accepted_deletes by done. by eexists.
  - intros events. apply successes_at_most_once.
Qed.

(** Alice validates [tok-1] at time 6000, one second after it was minted
    for her; a second validation, by her or by Bob, is refused. *)
Lemma validateDownloadToken_single_use_witness :
  let first := validateDownloadToken Scenario.alice "tok-1" 6000 Cases.minted in
  first.2 = inr (mkTokenValidation true "asset-1")
  ∧ urlAccessCache first.1 !! "tok-1" = None
  ∧ fails_with "FORBIDDEN" (validateDownloadToken Scenario.alice "tok-1" 6001 first.1)
  ∧ fails_with "FORBIDDEN" (validateDownloadToken Scenario.bob "tok-1" 6001 first.1).
Proof.
  intros first.
  assert (authenticated Scenario.alice "user-a") as Ha by (by split).
  assert (authenticated Scenario.bob "user-b") as Hb by (by split).
  destruct (validateDownloadToken_single_use Scenario.alice "user-a" "tok-1" 6000
              Cases.minted Ha) as (Hinv & Hok & _ & _ & Hsecond & _).
  fold first in Hinv, Hsecond.
  assert (first.2 = inr (mkTokenValidation true "asset-1")) as Hfirst.
  { apply (Hok (mkCacheEntry "user-a" "asset-1" 95000)); [reflexivity|reflexivity|].
    simpl. lia. }
  split; [done|]. split.
  - destruct (Hinv _ Hfirst) as (e & _ & _ & _ & _ & ->). apply lookup_delete_eq.
  - assert (accepted first) as Hacc by (unfold accepted; by rewrite Hfirst).
    split; by eapply Hsecond.
Defined.

(** ** finalizeUpload *)

(** Without a live ticket of the caller for the asset the call throws
    [INVALID_TICKET] and writes nothing, whatever the status of the asset. *)
Lemma finalizeUpload_no_live_ticket ctx u assetId clientSha256 version now w :
  authenticated ctx u →
  filter (λ t, Ticket.asset_id t = assetId ∧ Ticket.user_id t = u ∧ Ticket.used t = false)
         (upload_ticket w) = [] →
  finalizeUpload ctx assetId clientSha256 version now w
  = (w, inl (GraphQLError "Invalid or used upload ticket" "INVALID_TICKET")).
Proof.
  intros Hauth Hnone. unfold finalizeUpload. as_user Hauth.
  unfold bind, gets. by rewrite Hnone.
Qed.

(** With a live ticket the call marks the tickets of the asset used and
    stores the claimed hash, the status it derives from that hash alone, and
    the version it was given. Neither the expiry of the ticket nor the blob
    gateway is consulted. *)
Lemma finalizeUpload_live_ticket ctx u clientSha256 version now w t a :
  authenticated ctx u →
  filter (λ t, Ticket.asset_id t = Asset.id a ∧ Ticket.user_id t = u
               ∧ Ticket.used t = false) (upload_ticket w) = [t] →
  primary_key w → a ∈ asset w → int4 (Asset.size a) → int4 version →
  let status := if bool_decide (clientSha256 = "") then Corrupt else Ready in
  let stored := touch now (finalize_patch clientSha256 status version a) in
  let r := finalizeUpload ctx (Asset.id a) clientSha256 version now w in
  r.2 = inr (node stored)
  ∧ upload_ticket r.1
    = (λ t, if decide (Ticket.asset_id t = Asset.id a) then mark_used t else t)
        <$> upload_ticket w
  ∧ asset r.1
    = (λ x, if decide (Asset.id x = Asset.id a)
            then touch now (finalize_patch clientSha256 status version x) else x)
        <$> asset w.
Proof.
  intros Hauth Hlive Hpk Hin Hsize Hversion status stored r.
  set (w1 := set_upload_ticket
               ((λ t, if decide (Ticket.asset_id t = Asset.id a) then mark_used t else t)
                  <$> upload_ticket w) w).
  assert (r = (set_asset
                 ((λ x, if decide (Asset.id x = Asset.id a)
                        then touch now (finalize_patch clientSha256 status version x)
                        else x) <$> asset w) w1,
               inr (node stored))) as ->; [|done].
  subst r. unfold finalizeUpload. as_user Hauth.
  unfold bind, gets, modify, query. rewrite Hlive. cbn. fold status w1.
  rewrite (update_asset_one_row _ _ _ w1 a); [done| |by split].
  by apply (filter_key Asset.id).
Qed.

(** C1, at the input of the specification's scenario. The bytes stored
    for [asset-1] digest to ["cafebabe"] (that is what the hash-object
    function answers), the client claims ["deadbeef"], and [finalizeUpload]
    returns and stores status [ready] with the claimed hash. *)
Theorem finalizeUpload_trusts_claimed_hash :
  let r := finalizeUpload Scenario.alice "asset-1" "deadbeef" 1 2000 Scenario.issued in
  hashObject Scenario.digest (storage Scenario.issued) (Some "user-a/asset-1/photo.jpg")
  = Hashed "cafebabe" 3 None
  ∧ (∃ n, r.2 = inr n ∧ n_status n = Ready ∧ n_sha256 n = Some "deadbeef")
  ∧ (λ a, (Asset.status a, Asset.sha256 a)) <$> asset r.1 = [(Ready, Some "deadbeef")].
Proof.
  split; [reflexivity|]. split; [|reflexivity].
  eexists. split; [reflexivity|]. by split.
Qed.

(** C2, at a ticket past its expiry. The ticket of [asset-1] expired at time
    601000; a [finalizeUpload] at time 9000000 returns the asset as [ready]
    and has marked the ticket used. *)
Theorem finalizeUpload_accepts_expired_ticket :
  let r := finalizeUpload Scenario.alice "asset-1" "cafebabe" 1 9000000 Scenario.issued in
  (λ t, (Ticket.expires_at t, Ticket.used t)) <$> upload_ticket Scenario.issued
  = [(601000, false)]
  ∧ (∃ n, r.2 = inr n ∧ n_status n = Ready)
  ∧ Ticket.used <$> upload_ticket r.1 = [true]
  ∧ Asset.status <$> asset r.1 = [Ready].
Proof.
  split; [reflexivity|]. split; [|by split].
  eexists. split; [reflexivity|]. reflexivity.
Qed.

(** C4, at a repeated finalize. [asset-1] is [ready] and its ticket is used;
    the same [finalizeUpload] call once more throws [INVALID_TICKET]. *)
Theorem finalizeUpload_again_is_refused :
  Asset.status <$> asset Scenario.finalized = [Ready]
  ∧ Ticket.used <$> upload_ticket Scenario.finalized = [true]
  ∧ finalizeUpload Scenario.alice "asset-1" "cafebabe" 1 3000 Scenario.finalized
    = (Scenario.finalized,
       inl (GraphQLError "Invalid or used upload ticket" "INVALID_TICKET")).
Proof.
  split; [reflexivity|]. split; [reflexivity|].
  apply (finalizeUpload_no_live_ticket _ "user-a"); [by split|reflexivity].
Qed.

(** ** getDownloadUrl *)

(** For an asset the ledger does not have, the error of [.single()] is
    rethrown as it is. *)
Lemma getDownloadUrl_unknown_asset ctx u assetId accessToken auditId now w :
  authenticated ctx u →
  filter (λ a, Asset.id a = assetId) (asset w) = [] →
  getDownloadUrl ctx assetId accessToken auditId now w
  = (w, inl (PostgrestError "PGRST116")).
Proof.
  intros Hauth Hnone. unfold getDownloadUrl. as_user Hauth.
  unfold bind, gets. by rewrite Hnone.
Qed.

(** The [NOT_FOUND] branch is never taken. *)
Lemma getDownloadUrl_never_not_found ctx assetId accessToken auditId now w :
  ¬ fails_with "NOT_FOUND" (getDownloadUrl ctx assetId accessToken auditId now w).
Proof.
  intros [message Hthrown]. revert Hthrown.
  unfold getDownloadUrl, bind, requireAuth, gets, modify, query, rethrow, throw, ret.
  destruct (userId ctx) as [u|]; [case_bool_decide|]; simpl; try done.
  destruct (filter _ (asset w)) as [|a [|b l]]; simpl; try done.
  repeat (case_match; simplify_eq; simpl; try done).
Qed.

(** A caller who does not own the asset and holds no grant with
    [can_download] is refused. *)
Lemma getDownloadUrl_forbidden ctx u accessToken auditId now w a :
  authenticated ctx u →
  filter (λ x, Asset.id x = Asset.id a) (asset w) = [a] →
  Asset.owner_id a ≠ u →
  filter (λ s, Share.asset_id s = Asset.id a ∧ Share.to_user s = u
               ∧ Share.can_download s = true) (asset_share w) = [] →
  getDownloadUrl ctx (Asset.id a) accessToken auditId now w
  = (w, inl (GraphQLError "Access denied" "FORBIDDEN")).
Proof.
  intros Hauth Hrow Howner Hgrant. unfold getDownloadUrl. as_user Hauth.
  unfold bind, gets. rewrite Hrow. simpl.
  rewrite bool_decide_eq_true_2 by done. by rewrite Hgrant.
Qed.

(** The owner, and the holder of a grant with [can_download], get the
    signed URL with the fresh token appended, and the token is cached for
    90 seconds. *)
Lemma getDownloadUrl_granted ctx u accessToken auditId now w a signedUrl :
  authenticated ctx u →
  filter (λ x, Asset.id x = Asset.id a) (asset w) = [a] →
  (Asset.owner_id a = u
   ∨ ∃ s, filter (λ s, Share.asset_id s = Asset.id a ∧ Share.to_user s = u
                       ∧ Share.can_download s = true) (asset_share w) = [s]) →
  createSignedUrl (storage w) (Asset.storage_path a) 90 = ok signedUrl →
  let r := getDownloadUrl ctx (Asset.id a) accessToken auditId now w in
  r.2 = inr (mkDownloadLink (signedUrl +:+ "&access_token=" +:+ accessToken)
                            (now + 90000))
  ∧ urlAccessCache r.1 !! accessToken
    = Some (mkCacheEntry u (Asset.id a) (now + 90000)).
Proof.
  intros Hauth Hrow Hmay Hsigned r. subst r. unfold getDownloadUrl. as_user Hauth.
  unfold bind, gets, modify, query. rewrite Hrow. simpl.
  destruct Hmay as [Howner|[s Hgrant]];
    [rewrite bool_decide_eq_false_2 by (by intros ?)
    |case_bool_decide; [rewrite Hgrant|]];
    simpl; rewrite Hsigned; simpl;
    destruct (insert_audit _ _) as [w2 ?] eqn:Haudit; simpl;
    unfold insert_audit in Haudit; repeat case_bool_decide; simplify_eq; simpl;
    (split; [done|apply lookup_insert_eq]).
Qed.

(** The scenario of the specification: Bob is refused while he holds no
    grant, and is served once Alice has shared the asset with him. *)
Lemma getDownloadUrl_after_share :
  getDownloadUrl Scenario.bob "asset-1" "tok-2" "audit-2" 5000 Scenario.finalized
  = (Scenario.finalized, inl (GraphQLError "Access denied" "FORBIDDEN"))
  ∧ (getDownloadUrl Scenario.bob "asset-1" "tok-2" "audit-2" 5000 Cases.shared).2
    = inr (mkDownloadLink
             "https://blob/get/user-a/asset-1/photo.jpg?sig=1&access_token=tok-2" 95000).
Proof. split; reflexivity. Qed.

(** C8, at an unknown asset. Bob asks for a download URL of an asset the
    ledger does not have: the call rethrows the [PGRST116] error of
    [.single()], which is not the [NOT_FOUND] error. *)
Theorem getDownloadUrl_unknown_asset_not_NotFound :
  let r := getDownloadUrl Scenario.bob "no-such-asset" "tok-9" "audit-9" 5000
                          Scenario.finalized in
  filter (λ a, Asset.id a = "no-such-asset") (asset Scenario.finalized) = []
  ∧ r = (Scenario.finalized, inl (PostgrestError "PGRST116"))
  ∧ ¬ fails_with "NOT_FOUND" r.
Proof.
  split; [reflexivity|]. split.
  - apply (getDownloadUrl_unknown_asset _ "user-b"); [by split|reflexivity].
  - apply getDownloadUrl_never_not_found.
Qed.

(** ** myAssets *)

#[local] Instance newer_first_transitive : Transitive newer_first.
Proof. unfold newer_first. intros a b c ? ?. lia. Qed.

#[local] Instance newer_first_total : Total newer_first.
Proof. unfold newer_first. intros a b. lia. Qed.

Section ListingFacts.
Variable ilike : string → string → bool.

(** The rows come newest first. *)
Lemma listing_rows_newest_first u after q w :
  StronglySorted newer_first (listing_rows ilike u after q w).
Proof. unfold listing_rows. apply StronglySorted_merge_sort; apply _. Qed.

(** The rows are assets of the caller. *)
Lemma listing_rows_owned u after q w a :
  a ∈ listing_rows ilike u after q w → a ∈ asset w ∧ Asset.owner_id a = u.
Proof.
  unfold listing_rows. rewrite merge_sort_Permutation. intros Ha.
  assert (a ∈ filter (λ a, Asset.owner_id a = u) (asset w)) as Hown.
  { destruct after as [t|]; [apply list_elem_of_filter in Ha as [_ Ha]|];
      (destruct q as [s|]; [case_bool_decide|]; [done| |done]);
      by apply list_elem_of_filter in Ha as [_ Ha]. }
  apply list_elem_of_filter in Hown. tauto.
Qed.

(** With a cursor, the rows are the ones created strictly after it. *)
Lemma listing_rows_after_cursor u t q w a :
  a ∈ listing_rows ilike u (Some t) q w → Asset.created_at a > t.
Proof.
  unfold listing_rows. rewrite merge_sort_Permutation. intros Ha.
  by apply list_elem_of_filter in Ha as [? _].
Qed.

(** A page of positive size [first] is cut from a fetch of [first + 1]
    rows: it holds the first [first] rows of the listing, its end cursor is
    the creation time of its last row, and [hasNextPage] tells whether the
    listing has more rows than the page. *)
Lemma myAssets_page ctx u after first q w :
  authenticated ctx u → 0 < first →
  let rows := listing_rows ilike u after q w in
  let nodes := take (Z.to_nat first) rows in
  myAssets ilike ctx after (Some first) q w
  = (w, inr (mkAssetConnection
               ((λ a, mkAssetEdge (Asset.created_at a) (node a)) <$> nodes)
               (mkPageInfo (Asset.created_at <$> last nodes)
                           (bool_decide (Z.to_nat first < length rows)%nat)))).
Proof.
  intros Hauth Hfirst rows nodes. unfold myAssets. as_user Hauth.
  assert (page_limit (Some first) = first) as ->.
  { unfold page_limit. by rewrite bool_decide_eq_false_2 by lia. }
  unfold bind, gets, limit_rows.
  rewrite bool_decide_eq_true_2 by lia. fold rows. cbn [error ok data default].
  unfold id, ret. rewrite length_take.
  destruct (decide (Z.to_nat first < length rows)%nat) as [Hmore|Hless].
  - rewrite (bool_decide_eq_true_2 (Z.of_nat _ > _)) by lia.
    rewrite (bool_decide_eq_true_2 (_ < _)%nat) by done.
    unfold slice0. rewrite bool_decide_eq_true_2 by lia.
    rewrite take_take. replace (_ `min` _)%nat with (Z.to_nat first) by lia.
    done.
  - rewrite (bool_decide_eq_false_2 (Z.of_nat _ > _)) by lia.
    rewrite (bool_decide_eq_false_2 (_ < _)%nat) by done.
    subst nodes. by rewrite !take_ge by lia.
Qed.
End ListingFacts.

(** C9, at three uploads. Alice has assets created at times 1000, 2000 and
    3000. The first page of two holds the ones of 3000 and 2000, newest
    first, ends at cursor 2000 and announces a next page; the page after
    cursor 2000 holds the asset of 3000 again, and not the older asset of
    1000. *)
Theorem myAssets_after_cursor_is_newer :
  let page1 := (myAssets Cases.any_ilike Scenario.alice None (Some 2) None Cases.three).2 in
  let page2 := (myAssets Cases.any_ilike Scenario.alice (Some 2000) (Some 2) None
                         Cases.three).2 in
  Asset.created_at <$> asset Cases.three = [1000; 2000; 3000]
  ∧ (∃ c, page1 = inr c ∧ cursor <$> edges c = [3000; 2000]
          ∧ pageInfo c = mkPageInfo (Some 2000) true)
  ∧ (∃ c, page2 = inr c ∧ cursor <$> edges c = [3000]
          ∧ pageInfo c = mkPageInfo (Some 3000) false).
Proof.
  split; [reflexivity|]. split; eexists; (split; [reflexivity|by split]).
Qed.

(** ** The version [finalizeUpload] writes

    [finalizeUpload] stores the version it is given, compared with nothing:
    version 1 leaves the fresh asset at 1, version 7 moves it to 7. *)
Lemma finalizeUpload_writes_given_version :
  asset_version Scenario.issued "asset-1" = Some 1
  ∧ asset_version
      (finalizeUpload Scenario.alice "asset-1" "cafebabe" 1 2000 Scenario.issued).1
      "asset-1" = Some 1
  ∧ asset_version
      (finalizeUpload Scenario.alice "asset-1" "cafebabe" 7 2000 Scenario.issued).1
      "asset-1" = Some 7.
Proof. by repeat split. Qed.

(** * Further properties of the resolvers and their surroundings *)

(** ** sanitizeFilename *)

Lemma replace_other_chars_only s : only_filename_chars (replace_other_chars s) = true.
Proof.
  induction s as [|c s IH]; [done|]. simpl. rewrite IH, andb_true_r.
  by destruct (is_filename_char c) eqn:Hc.
Qed.

Lemma replace_other_chars_fixed s :
  only_filename_chars s = true → replace_other_chars s = s.
Proof.
  induction s as [|c s IH]; [done|]. simpl.
  intros [Hc Hs]%andb_true_iff. by rewrite Hc, IH.
Qed.

Lemma collapse_underscores_only s :
  only_filename_chars s = true → only_filename_chars (collapse_underscores s) = true.
Proof.
  induction s as [|c s IH]; [done|]. intros [Hc Hs]%andb_true_iff.
  change (collapse_underscores (String c s))
    with (match s with
          | String c' _ =>
            if bool_decide (c = "_"%char ∧ c' = "_"%char) then collapse_underscores s
            else String c (collapse_underscores s)
          | EmptyString => String c EmptyString
          end).
  destruct s as [|c' s']; [simpl; by rewrite Hc|].
  case_bool_decide; [by apply IH|].
  change (is_filename_char c && only_filename_chars (collapse_underscores (String c' s'))
          = true).
  by rewrite Hc, IH.
Qed.

(** What is left of a string after collapsing starts with the character
    the string starts with. *)
Lemma collapse_underscores_head c s :
  ∃ s', collapse_underscores (String c s) = String c s'.
Proof.
  revert c. induction s as [|c' s IH]; intros c; [by eexists|].
  change (collapse_underscores (String c (String c' s)))
    with (if bool_decide (c = "_"%char ∧ c' = "_"%char)
          then collapse_underscores (String c' s)
          else String c (collapse_underscores (String c' s))).
  case_bool_decide as Hcc; [|by eexists].
  destruct Hcc as [-> ->]. apply IH.
Qed.

Lemma collapse_underscores_no_run s : no_underscore_run (collapse_underscores s) = true.
Proof.
  induction s as [|c s IH]; [done|].
  destruct s as [|c' s']; [done|].
  change (collapse_underscores (String c (String c' s')))
    with (if bool_decide (c = "_"%char ∧ c' = "_"%char)
          then collapse_underscores (String c' s')
          else String c (collapse_underscores (String c' s'))).
  case_bool_decide as Hcc; [done|].
  destruct (collapse_underscores_head c' s') as [t Ht].
  rewrite Ht in *.
  change (negb (bool_decide (c = "_"%char ∧ c' = "_"%char))
          && no_underscore_run (String c' t) = true).
  by rewrite IH, (bool_decide_eq_false_2 _ Hcc).
Qed.

Lemma collapse_underscores_fixed s :
  no_underscore_run s = true → collapse_underscores s = s.
Proof.
  induction s as [|c s IH]; [done|].
  destruct s as [|c' s']; [done|].
  change (no_underscore_run (String c (String c' s')))
    with (negb (bool_decide (c = "_"%char ∧ c' = "_"%char))
          && no_underscore_run (String c' s')).
  intros [Hcc Hs]%andb_true_iff.
  change (collapse_underscores (String c (String c' s')))
    with (if bool_decide (c = "_"%char ∧ c' = "_"%char)
          then collapse_underscores (String c' s')
          else String c (collapse_underscores (String c' s'))).
  destruct (bool_decide _); [done|]. by rewrite IH.
Qed.

Lemma filename_char_not_space c : is_filename_char c = true → is_space c = false.
Proof.
  unfold is_filename_char, is_space.
  destruct (decide (c = "."%char)) as [->|?]; [done|].
  destruct (decide (c = "_"%char)) as [->|?]; [done|].
  destruct (decide (c = "-"%char)) as [->|?]; [done|].
  rewrite !bool_decide_eq_false_2 by done. rewrite !orb_false_r.
  intros Hc. apply orb_false_iff. split; [apply andb_false_iff|apply Nat.eqb_neq];
    repeat (apply orb_true_iff in Hc as [Hc|Hc]);
    apply andb_true_iff in Hc as [?%Nat.leb_le ?%Nat.leb_le];
    try (right; apply Nat.leb_gt); lia.
Qed.

Lemma trim_start_fixed s : only_filename_chars s = true → trim_start s = s.
Proof.
  destruct s as [|c s]; [done|]. simpl. intros [Hc _]%andb_true_iff.
  by rewrite (filename_char_not_space c Hc).
Qed.

Lemma rev_app_only s t :
  only_filename_chars s = true → only_filename_chars t = true →
  only_filename_chars (String.rev_app s t) = true.
Proof.
  revert t. induction s as [|c s IH]; intros t; [done|]. simpl.
  intros [Hc Hs]%andb_true_iff Ht. apply IH; [done|]. simpl. by rewrite Hc.
Qed.

Lemma rev_app_rev_app s t u :
  String.rev_app (String.rev_app s t) u = String.rev_app t (s +:+ u).
Proof.
  revert t u. induction s as [|c s IH]; intros t u; [done|]. simpl.
  by rewrite IH.
Qed.

Lemma append_empty s : s +:+ "" = s.
Proof.
  induction s as [|c s IH]; [done|].
  change (String c (s +:+ "") = String c s). by rewrite IH.
Qed.

Lemma rev_rev s : String.rev (String.rev s) = s.
Proof. unfold String.rev. rewrite rev_app_rev_app. simpl. apply append_empty. Qed.

Lemma trim_fixed s : only_filename_chars s = true → trim s = s.
Proof.
  intros Hs. unfold trim. rewrite (trim_start_fixed s) by done.
  rewrite trim_start_fixed; [apply rev_rev|]. by apply rev_app_only.
Qed.

(** X1. Whatever the file name, its sanitized form holds only the
    characters [a-zA-Z0-9._-] and no two underscores in a row. *)
Theorem sanitizeFilename_safe filename :
  only_filename_chars (sanitizeFilename filename) = true
  ∧ no_underscore_run (sanitizeFilename filename) = true.
Proof.
  unfold sanitizeFilename.
  assert (only_filename_chars (collapse_underscores (replace_other_chars filename)) = true)
    as Honly by apply collapse_underscores_only, replace_other_chars_only.
  rewrite trim_fixed by done. split; [done|]. apply collapse_underscores_no_run.
Qed.

(** X2. A name that already has that form is left as it is, so sanitizing
    twice is sanitizing once. *)
Theorem sanitizeFilename_fixed_point filename :
  only_filename_chars filename = true → no_underscore_run filename = true →
  sanitizeFilename filename = filename
  ∧ ∀ other, sanitizeFilename (sanitizeFilename other) = sanitizeFilename other.
Proof.
  assert (∀ s, only_filename_chars s = true → no_underscore_run s = true →
               sanitizeFilename s = s) as Hfixed.
  { intros s Honly Hrun. unfold sanitizeFilename.
    rewrite replace_other_chars_fixed, collapse_underscores_fixed by done.
    by apply trim_fixed. }
  intros Honly Hrun. split; [by apply Hfixed|].
  intros other. unfold sanitizeFilename at 2 3.
  assert (only_filename_chars (collapse_underscores (replace_other_chars other)) = true)
    as Hother by apply collapse_underscores_only, replace_other_chars_only.
  rewrite trim_fixed by done.
  apply Hfixed; [done|apply collapse_underscores_no_run].
Qed.

Lemma sanitizeFilename_fixed_point_witness :
  sanitizeFilename "my_photo-1.jpg" = "my_photo-1.jpg"
  ∧ sanitizeFilename (sanitizeFilename "my  photo (1).jpg")
    = sanitizeFilename "my  photo (1).jpg".
Proof.
  destruct (sanitizeFilename_fixed_point "my_photo-1.jpg") as [Hfixed Hagain];
    [reflexivity|reflexivity|].
  split; [exact Hfixed|apply Hagain].
Defined.

(** ** The hex rendering of a digest *)

Lemma hex_digit_code n :
  0 ≤ n < 16 →
  nat_of_ascii (hex_digit n) = Z.to_nat (if bool_decide (n < 10) then 48 + n else 87 + n).
Proof.
  intros Hn. unfold hex_digit. apply nat_ascii_embedding.
  case_bool_decide; lia.
Qed.

Lemma hex_digit_inj n m : 0 ≤ n < 16 → 0 ≤ m < 16 → hex_digit n = hex_digit m → n = m.
Proof.
  intros Hn Hm Heq. apply (f_equal nat_of_ascii) in Heq.
  rewrite !hex_digit_code in Heq by done.
  repeat case_bool_decide; lia.
Qed.

Lemma hex_byte b :
  is_byte b →
  padStart2 (toString16 b)
  = String (hex_digit (b / 16)) (String (hex_digit (b mod 16)) EmptyString).
Proof.
  intros [Hlo Hhi]. unfold toString16. case_bool_decide as Hsmall; [|done].
  simpl. by rewrite Z.div_small, Z.mod_small by lia.
Qed.

Lemma hex_cons b bytes :
  is_byte b →
  hex (b :: bytes)
  = String (hex_digit (b / 16)) (String (hex_digit (b mod 16)) (hex bytes)).
Proof. intros Hb. unfold hex. simpl. by rewrite (hex_byte b Hb). Qed.

(** X3. The hex rendering of [n] bytes has [2 n] characters, and two byte
    sequences with the same rendering are the same sequence. *)
Theorem hex_faithful bytes bytes' :
  Forall is_byte bytes → Forall is_byte bytes' →
  String.length (hex bytes) = (2 * length bytes)%nat
  ∧ (hex bytes = hex bytes' → bytes = bytes').
Proof.
  intros Hbytes Hother. split.
  - clear Hother. induction Hbytes as [|b bytes Hb _ IH]; [done|].
    rewrite hex_cons by done. simpl. rewrite IH. lia.
  - revert bytes' Hother. induction Hbytes as [|b bytes Hb _ IH]; intros bytes' Hbytes' Heq.
    + destruct Hbytes' as [|b' bytes' Hb' _]; [done|].
      by rewrite hex_cons in Heq.
    + destruct Hbytes' as [|b' bytes' Hb' Hrest]; [by rewrite hex_cons in Heq|].
      rewrite !hex_cons in Heq by done. injection Heq as Hhi Hlo Htail.
      assert (b / 16 = b' / 16) as Hq.
      { apply hex_digit_inj; [| |done]; unfold is_byte in *.
        - split; [apply Z.div_pos; lia|apply Z.div_lt_upper_bound; lia].
        - split; [apply Z.div_pos; lia|apply Z.div_lt_upper_bound; lia]. }
      assert (b mod 16 = b' mod 16) as Hr.
      { apply hex_digit_inj; [| |done]; by apply Z.mod_pos_bound. }
      f_equal; [|by apply IH].
      rewrite (Z.div_mod b 16), (Z.div_mod b' 16) by lia. by rewrite Hq, Hr.
Qed.

Lemma hex_faithful_witness :
  String.length (hex [0; 15; 16; 171; 255]) = 10%nat
  ∧ hex [0; 15; 16; 171; 255] = "000f10abff".
Proof.
  assert (Forall is_byte [0; 15; 16; 171; 255]) as Hbytes
    by (repeat constructor; unfold is_byte; lia).
  destruct (hex_faithful [0; 15; 16; 171; 255] [0; 15; 16; 171; 255] Hbytes Hbytes)
    as [Hlen _].
  split; [exact Hlen|reflexivity].
Defined.

(** ** The hash-object function *)

(** X4. What [detectMimeType] detects is one of the types [createUploadUrl]
    allows, and it detects nothing in fewer than 12 bytes; the size
    [hash-object] reports is the number of bytes it digested. *)
Theorem hashObject_reply sha256_hex gw path sha256 size mime :
  hashObject sha256_hex gw path = Hashed sha256 size mime →
  ∃ p bytes,
    path = Some p ∧ p ≠ "" ∧ download gw p = Some bytes
    ∧ sha256 = sha256_hex bytes ∧ size = Z.of_nat (length bytes)
    ∧ mime = detectMimeType bytes
    ∧ (∀ m, mime = Some m → m ∈ ALLOWED_MIMES ∧ (12 ≤ length bytes)%nat).
Proof.
  unfold hashObject. destruct path as [p|]; [|done].
  case_bool_decide as Hp; [done|].
  destruct (download gw p) as [bytes|] eqn:Hbytes; [|done].
  intros [= <- <- <-]. exists p, bytes. do 6 (split; [done|]).
  intros m Hm. split.
  - revert Hm. unfold detectMimeType.
    repeat case_bool_decide; intros [= <-]; by apply (bool_decide_unpack _).
  - revert Hm. unfold detectMimeType. case_bool_decide; [done|]. lia.
Qed.

Lemma hashObject_reply_witness :
  ∃ bytes,
    download Scenario.gateway "user-a/asset-1/photo.jpg" = Some bytes
    ∧ length bytes = 3%nat ∧ detectMimeType bytes = None.
Proof.
  destruct (hashObject_reply Scenario.digest Scenario.gateway
              (Some "user-a/asset-1/photo.jpg") "cafebabe" 3 None eq_refl)
    as (p & bytes & [= <-] & _ & Hbytes & _ & Hsize & Hmime & _).
  exists bytes. split; [exact Hbytes|]. split; [lia|done].
Defined.

(** ** The request context *)

Lemma substring_all s : ∀ n, (String.length s ≤ n)%nat → String.substring 0 n s = s.
Proof.
  induction s as [|c s IH]; intros [|n] Hn; simpl in *; try done; try lia.
  by rewrite IH by lia.
Qed.

Lemma replace_first_scheme token : replace_first "Bearer " "" ("Bearer " +:+ token) = token.
Proof.
  unfold replace_first. simpl. change ("" +:+ token) with token.
  assert (String.prefix "" token = true) as -> by (by destruct token).
  change ("" +:+ ?s) with s. apply substring_all. lia.
Qed.

Lemma replace_first_absent pattern replacement s :
  String.index 0 pattern s = None → replace_first pattern replacement s = s.
Proof.
  induction s as [|c s IH]; simpl.
  - destruct pattern; [done|]. by intros _.
  - destruct pattern as [|p pattern]; [done|].
    destruct (String.prefix (String p pattern) (String c s)) eqn:Hprefix.
    + simpl in Hprefix. by rewrite Hprefix.
    + simpl in Hprefix. rewrite Hprefix.
      destruct (String.index 0 (String p pattern) s); [done|].
      intros _. by rewrite IH.
Qed.

Lemma bearer_token_scheme token :
  bearer_token (Some (authorization_header token)) = Some (header_trim token).
Proof.
  change (Some (header_trim (replace_first "Bearer " "" ("Bearer " +:+ token)))
          = Some (header_trim token)).
  by rewrite replace_first_scheme.
Qed.

Lemma bearer_token_bare header :
  String.index 0 "Bearer " header = None →
  bearer_token (Some header) = Some (header_trim header).
Proof.
  intros Habsent.
  change (Some (header_trim (replace_first "Bearer " "" header))
          = Some (header_trim header)).
  by rewrite replace_first_absent.
Qed.

(** X5. The header the client builds from a nonempty access token without
    surrounding white space gives the server exactly that token back: the
    token reaches the identity provider unchanged, and the context carries
    the user the provider answers. Without a header the context carries no
    user. *)
Theorem context_of_client_header getUser token :
  header_trim token = token → token ≠ "" →
  bearer_token (Some (authorization_header token)) = Some token
  ∧ context getUser (Some (authorization_header token)) = mkContext (getUser token)
  ∧ context getUser None = mkContext None.
Proof.
  intros Htrim Hne.
  assert (bearer_token (Some (authorization_header token)) = Some token) as Htoken.
  { by rewrite bearer_token_scheme, Htrim. }
  split; [done|]. split; [|done].
  unfold context. rewrite Htoken. by rewrite bool_decide_eq_false_2.
Qed.

Lemma context_of_client_header_witness :
  let getUser token := if bool_decide (token = "jwt.of.alice") then Some "user-a" else None in
  bearer_token (Some "Bearer jwt.of.alice") = Some "jwt.of.alice"
  ∧ context getUser (Some "Bearer jwt.of.alice") = Scenario.alice.
Proof.
  intros getUser.
  destruct (context_of_client_header getUser "jwt.of.alice") as (Htoken & Hctx & _);
    [reflexivity|done|].
  split; [exact Htoken|exact Hctx].
Defined.

(** X6. The scheme is not required: a header in which ["Bearer "] does not
    occur is read as the token itself, and gives the context the same header
    with the scheme in front gives. *)
Theorem context_without_scheme getUser header :
  String.index 0 "Bearer " header = None →
  bearer_token (Some header) = Some (header_trim header)
  ∧ context getUser (Some header) = context getUser (Some (authorization_header header)).
Proof.
  intros Habsent.
  pose proof (bearer_token_bare header Habsent) as Hbare.
  split; [done|]. unfold context. by rewrite Hbare, bearer_token_scheme.
Qed.

Lemma context_without_scheme_witness :
  let getUser token := if bool_decide (token = "jwt.of.alice") then Some "user-a" else None in
  context getUser (Some "jwt.of.alice") = context getUser (Some "Bearer jwt.of.alice").
Proof.
  intros getUser.
  by destruct (context_without_scheme getUser "jwt.of.alice") as [_ Hctx].
Defined.

(** ** Calls without a user *)

Lemma requireAuth_refuses ctx w :
  userId ctx = None ∨ userId ctx = Some "" →
  requireAuth ctx w = (w, inl (GraphQLError "Unauthorized" "UNAUTHENTICATED")).
Proof. unfold requireAuth. by intros [-> | ->]. Qed.

(** X7. When the context carries no user (none, or the empty string), every
    resolver throws [UNAUTHENTICATED] before it reads or writes anything. *)
Theorem resolvers_require_user ctx w :
  userId ctx = None ∨ userId ctx = Some "" →
  let refused {A} : World * (Error + A) :=
    (w, inl (GraphQLError "Unauthorized" "UNAUTHENTICATED")) in
  (∀ ilike after first q, myAssets ilike ctx after first q w = refused)
  ∧ listAssets ctx w = refused
  ∧ (∀ assetId accessToken auditId now,
       getDownloadUrl ctx assetId accessToken auditId now w = refused)
  ∧ (∀ accessToken now, validateDownloadToken ctx accessToken now w = refused)
  ∧ (∀ filename mime size assetId nonce now,
       createUploadUrl ctx filename mime size assetId nonce now w = refused)
  ∧ (∀ assetId clientSha256 version now,
       finalizeUpload ctx assetId clientSha256 version now w = refused)
  ∧ (∀ assetId filename version now, renameAsset ctx assetId filename version now w = refused)
  ∧ (∀ assetId version removed, deleteAsset ctx assetId version removed w = refused)
  ∧ (∀ assetId toEmail canDownload version shareId now,
       shareAsset ctx assetId toEmail canDownload version shareId now w = refused)
  ∧ (∀ assetId toEmail version, revokeShare ctx assetId toEmail version w = refused).
Proof.
  intros Hnone refused.
  pose proof (requireAuth_refuses ctx w Hnone) as Hauth.
  repeat split; intros;
    apply (bind_thrown _ _ _ _ _ Hauth).
Qed.

Lemma resolvers_require_user_witness :
  let anonymous := context (λ _, Some "user-a") (Some "Bearer ") in
  listAssets anonymous Cases.three
  = (Cases.three, inl (GraphQLError "Unauthorized" "UNAUTHENTICATED"))
  ∧ deleteAsset anonymous "asset-1" 1 true Cases.three
    = (Cases.three, inl (GraphQLError "Unauthorized" "UNAUTHENTICATED")).
Proof.
  intros anonymous.
  destruct (resolvers_require_user anonymous Cases.three)
    as (_ & Hlist & _ & _ & _ & _ & _ & Hdelete & _); [by left|].
  split; [exact Hlist|apply Hdelete].
Defined.

(** ** createUploadUrl: the reply and the gateway *)

Lemma insert_asset_fresh r w :
  asset_fits r →
  Forall (λ a, Asset.id a ≠ Asset.id r ∧ Asset.storage_path a ≠ Asset.storage_path r)
         (asset w) →
  insert_asset r w = (set_asset (asset w ++ [r]) w, mkResponse None None).
Proof.
  intros Hfits Hfresh. unfold insert_asset.
  rewrite bool_decide_eq_true_2 by done.
  rewrite bool_decide_eq_false_2; [done|].
  intros (a & Ha & Hdup)%Exists_exists.
  eapply Forall_forall in Hfresh; [|done]. tauto.
Qed.

Lemma insert_ticket_fresh t w :
  int4 (Ticket.size t) →
  Forall (λ x, Ticket.asset_id x ≠ Ticket.asset_id t ∧ Ticket.nonce x ≠ Ticket.nonce t)
         (upload_ticket w) →
  Exists (λ a, Asset.id a = Ticket.asset_id t) (asset w) →
  insert_ticket t w = (set_upload_ticket (upload_ticket w ++ [t]) w, mkResponse None None).
Proof.
  intros Hfits Hfresh Hasset. unfold insert_ticket.
  rewrite bool_decide_eq_true_2 by done.
  rewrite bool_decide_eq_false_2.
  - by rewrite bool_decide_eq_true_2.
  - intros (x & Hx & Hdup)%Exists_exists.
    eapply Forall_forall in Hfresh; [|done]. tauto.
Qed.

(** X8. An issuance for a MIME type outside the allow-list throws
    [BAD_REQUEST] and writes nothing. An issuance that returns was for an
    allowed type, and its reply carries the storage path
    [user/asset/sanitized name], the URL the gateway signed for that path as
    it is, the nonce, version 1 and an expiry ten minutes after [now]. *)
Theorem createUploadUrl_reply ctx u filename mime size assetId nonce now w :
  authenticated ctx u →
  let path := u +:+ "/" +:+ assetId +:+ "/" +:+ sanitizeFilename filename in
  let r := createUploadUrl ctx filename mime size assetId nonce now w in
  (mime ∉ ALLOWED_MIMES →
   r = (w, inl (GraphQLError ("Unsupported file type: " +:+ mime) "BAD_REQUEST")))
  ∧ (∀ t, r.2 = inr t →
          mime ∈ ALLOWED_MIMES
          ∧ data (createSignedUploadUrl (storage w) path) = Some (ut_uploadUrl t)
          ∧ t = mkUploadTicket assetId path (ut_uploadUrl t) (now + 600000) nonce 1).
Proof.
  intros Hauth path r. subst r. unfold createUploadUrl. as_user Hauth. split.
  - intros Hmime. by rewrite bool_decide_eq_false_2.
  - intros t. case_bool_decide as Hmime; [|done].
    unfold bind, query. fold path.
    destruct (insert_asset _ w) as [w1 ra] eqn:Ha.
    unfold insert_asset in Ha. repeat case_bool_decide; simplify_eq; simpl; try done.
    destruct (insert_ticket _ _) as [w2 rt] eqn:Ht.
    unfold insert_ticket in Ht. repeat case_bool_decide; simplify_eq; simpl; try done.
    destruct (createSignedUploadUrl _ _) as [[url|] [e|]]; simpl; try done.
    intros [= <-]. by repeat split.
Qed.

Lemma createUploadUrl_reply_witness :
  createUploadUrl Scenario.alice "virus.exe" "application/x-msdownload" 10 "asset-9" "nonce-9"
                  1500 Scenario.issued
  = (Scenario.issued,
     inl (GraphQLError "Unsupported file type: application/x-msdownload" "BAD_REQUEST")).
Proof.
  destruct (createUploadUrl_reply Scenario.alice "user-a" "virus.exe"
              "application/x-msdownload" 10 "asset-9" "nonce-9" 1500 Scenario.issued)
    as [Hrefused _]; [by split|].
  apply Hrefused. by intros ?%(bool_decide_pack _).
Defined.

(** X9. With an allowed type, a size that fits, and an id, a path and a
    nonce the ledger does not hold yet, the issuance writes the draft asset
    and its unused ticket; it returns the ticket exactly when the gateway
    signs the path, and when the gateway refuses it throws the gateway's
    error with both rows left in the ledger. *)
Theorem createUploadUrl_gateway ctx u filename mime size assetId nonce now w :
  authenticated ctx u → mime ∈ ALLOWED_MIMES → int4 size →
  let a := draft_row u filename mime size assetId now in
  let t := ticket_row u filename mime size assetId nonce now in
  Forall (λ x, Asset.id x ≠ assetId ∧ Asset.storage_path x ≠ Asset.storage_path a)
         (asset w) →
  Forall (λ x, Ticket.asset_id x ≠ assetId ∧ Ticket.nonce x ≠ nonce) (upload_ticket w) →
  let r := createUploadUrl ctx filename mime size assetId nonce now w in
  asset r.1 = asset w ++ [a]
  ∧ upload_ticket r.1 = upload_ticket w ++ [t]
  ∧ (∀ url, createSignedUploadUrl (storage w) (Asset.storage_path a) = ok url →
            r.2 = inr (mkUploadTicket assetId (Asset.storage_path a) url (now + 600000)
                                      nonce 1))
  ∧ (∀ e, error (createSignedUploadUrl (storage w) (Asset.storage_path a)) = Some e →
          r.2 = inl (StorageError e)).
Proof.
  intros Hauth Hmime Hsize a t Hasset Hticket r. subst r a t.
  unfold draft_row, ticket_row in *. unfold createUploadUrl. as_user Hauth.
  rewrite bool_decide_eq_true_2 by done. unfold bind, query.
  rewrite (insert_asset_fresh _ w);
    [|split; [done|unfold int4; simpl; lia]|exact Hasset].
  cbn [error fst snd].
  rewrite (insert_ticket_fresh _ (set_asset _ w)); [|done|exact Hticket|].
  - cbn [error fst snd]. simpl.
    destruct (createSignedUploadUrl (storage w) _) as [[url|] [e|]]; simpl;
      (do 2 (split; [done|])); split; try done; intros ? [=]; by subst.
  - simpl. apply Exists_app. right. by constructor.
Qed.

Lemma createUploadUrl_gateway_witness :
  let deaf := mkBlobGateway (λ _, failed "gateway down") (λ _ _, failed "gateway down")
                            (λ _, None) in
  let w := mkWorld [] [] [] [] [] ∅ deaf in
  let r := createUploadUrl Scenario.alice "photo.jpg" "image/jpeg" 1024 "asset-1" "nonce-1"
                           1000 w in
  r.2 = inl (StorageError "gateway down")
  ∧ Asset.status <$> asset r.1 = [Draft]
  ∧ Ticket.used <$> upload_ticket r.1 = [false].
Proof.
  intros deaf w r.
  destruct (createUploadUrl_gateway Scenario.alice "user-a" "photo.jpg" "image/jpeg" 1024
              "asset-1" "nonce-1" 1000 w) as (Hasset & Hticket & _ & Hreply).
  - by split.
  - by apply (bool_decide_unpack _).
  - unfold int4. lia.
  - constructor.
  - constructor.
  - fold r in Hasset, Hticket, Hreply.
    split; [by apply Hreply|]. by rewrite Hasset, Hticket.
Defined.

(** ** The listings *)

Lemma in_take {A} (x : A) n l : x ∈ take n l → x ∈ l.
Proof. intros (i & Hi & _)%elem_of_take. by eapply list_elem_of_lookup_2. Qed.

Lemma in_slice0 {A} (x : A) n l : x ∈ slice0 n l → x ∈ l.
Proof. unfold slice0. case_bool_decide; apply in_take. Qed.

(** X10. A page of [myAssets] of positive size [first]: it has at most
    [first] edges, each the node of an asset of the caller with its creation
    time as cursor, newest first; its end cursor is the cursor of its last
    edge; and it announces a next page exactly when the caller has more
    matching assets than [first]. Nothing is written. *)
Theorem myAssets_page_of_caller ilike ctx u after first q w :
  authenticated ctx u → 0 < first →
  ∃ c,
    myAssets ilike ctx after (Some first) q w = (w, inr c)
    ∧ Z.of_nat (length (edges c)) ≤ first
    ∧ Forall (λ e, ∃ a, a ∈ asset w ∧ Asset.owner_id a = u
                        ∧ e = mkAssetEdge (Asset.created_at a) (node a)) (edges c)
    ∧ StronglySorted (λ e e', cursor e' ≤ cursor e) (edges c)
    ∧ endCursor (pageInfo c) = cursor <$> last (edges c)
    ∧ (hasNextPage (pageInfo c) = true
       ↔ first < Z.of_nat (length (listing_rows ilike u after q w))).
Proof.
  intros Hauth Hfirst. eexists. split; [by apply myAssets_page|]. simpl.
  set (rows := listing_rows ilike u after q w).
  split; [rewrite length_fmap, length_take; lia|]. split; [|split; [|split]].
  - apply Forall_fmap, Forall_forall. intros a Ha%in_take.
    apply listing_rows_owned in Ha as [Hin Hown]. by exists a.
  - apply (StronglySorted_fmap _ newer_first); [by intros a b|].
    pose proof (listing_rows_newest_first ilike u after q w) as Hsorted.
    fold rows in Hsorted. rewrite <- (take_drop (Z.to_nat first) rows) in Hsorted.
    by apply StronglySorted_app_1_l in Hsorted.
  - by rewrite fmap_last, <- option_fmap_compose.
  - rewrite bool_decide_eq_true. lia.
Qed.

Lemma myAssets_page_of_caller_witness :
  ∃ c,
    myAssets Cases.any_ilike Scenario.alice None (Some 2) None Cases.three
    = (Cases.three, inr c)
    ∧ Z.of_nat (length (edges c)) ≤ 2
    ∧ endCursor (pageInfo c) = cursor <$> last (edges c).
Proof.
  destruct (myAssets_page_of_caller Cases.any_ilike Scenario.alice "user-a" None 2 None
              Cases.three) as (c & Hrun & Hlen & _ & _ & Hend & _); [by split|lia|].
  by exists c.
Defined.

(** X11. A page of [myAssets] without cursor and filter that is at least
    as large as the caller's number of assets holds the nodes of the rows
    [listAssets] returns, in another order, and announces no next page. *)
Theorem myAssets_covers_listAssets ilike ctx u first w :
  authenticated ctx u → 0 < first →
  Z.of_nat (length (filter (λ a, Asset.owner_id a = u) (asset w))) ≤ first →
  ∃ c rows,
    myAssets ilike ctx None (Some first) None w = (w, inr c)
    ∧ listAssets ctx w = (w, inr rows)
    ∧ rows = filter (λ a, Asset.owner_id a = u) (asset w)
    ∧ edge_node <$> edges c ≡ₚ node <$> rows
    ∧ hasNextPage (pageInfo c) = false.
Proof.
  intros Hauth Hfirst Hall. eexists _, _. split; [by apply myAssets_page|].
  split; [|split; [done|]].
  { unfold listAssets. as_user Hauth. done. }
  simpl.
  assert (listing_rows ilike u None None w ≡ₚ filter (λ a, Asset.owner_id a = u) (asset w))
    as Hperm by apply merge_sort_Permutation.
  assert (length (listing_rows ilike u None None w)
          = length (filter (λ a, Asset.owner_id a = u) (asset w))) as Hlen
    by (by rewrite Hperm).
  split.
  - rewrite take_ge by lia. rewrite <- list_fmap_compose.
    rewrite Hperm. by apply Permutation_refl'.
  - apply bool_decide_eq_false. lia.
Qed.

Lemma myAssets_covers_listAssets_witness :
  ∃ c rows,
    myAssets Cases.any_ilike Scenario.alice None (Some 50) None Cases.three
    = (Cases.three, inr c)
    ∧ listAssets Scenario.alice Cases.three = (Cases.three, inr rows)
    ∧ edge_node <$> edges c ≡ₚ node <$> rows.
Proof.
  destruct (myAssets_covers_listAssets Cases.any_ilike Scenario.alice "user-a" 50 Cases.three)
    as (c & rows & Hpage & Hlist & _ & Hperm & _); [by split|lia|simpl; lia|].
  by exists c, rows.
Defined.

(** X12. With a cursor [after], every edge of the page [myAssets] returns
    was created strictly after the cursor, whatever the page size and the
    filter. *)
Theorem myAssets_after_only_newer ilike ctx u after first q w c :
  authenticated ctx u →
  (myAssets ilike ctx (Some after) first q w).2 = inr c →
  Forall (λ e, after < cursor e) (edges c).
Proof.
  intros Hauth. unfold myAssets. as_user Hauth. unfold bind, gets, limit_rows.
  case_bool_decide; [|done]. cbn [error ok data default]. unfold id, ret. simpl.
  intros [= <-]. simpl. apply Forall_fmap, Forall_forall. intros a Ha. simpl.
  assert (a ∈ listing_rows ilike u (Some after) q w) as Hrow.
  { case_bool_decide; [apply in_slice0 in Ha|]; by apply in_take in Ha. }
  apply listing_rows_after_cursor in Hrow. lia.
Qed.

Lemma myAssets_after_only_newer_witness :
  ∃ c,
    (myAssets Cases.any_ilike Scenario.alice (Some 1000) (Some 2) None Cases.three).2 = inr c
    ∧ Forall (λ e, 1000 < cursor e) (edges c).
Proof.
  eexists. split; [reflexivity|].
  apply (myAssets_after_only_newer Cases.any_ilike Scenario.alice "user-a" 1000 (Some 2)
           None Cases.three); [by split|reflexivity].
Defined.

(** ** Minting and validating download tokens *)

(** X13. A download link that is granted can be validated: the caller who
    asked, presenting the token of the link no later than 90 seconds
    after the request, gets the asset id of the link back, and the token is
    gone from the cache. *)
Theorem download_token_round_trip ctx u accessToken auditId now now' w a signedUrl :
  authenticated ctx u →
  filter (λ x, Asset.id x = Asset.id a) (asset w) = [a] →
  (Asset.owner_id a = u
   ∨ ∃ s, filter (λ s, Share.asset_id s = Asset.id a ∧ Share.to_user s = u
                       ∧ Share.can_download s = true) (asset_share w) = [s]) →
  createSignedUrl (storage w) (Asset.storage_path a) 90 = ok signedUrl →
  now' ≤ now + 90000 →
  let minted := getDownloadUrl ctx (Asset.id a) accessToken auditId now w in
  let validated := validateDownloadToken ctx accessToken now' minted.1 in
  validated.2 = inr (mkTokenValidation true (Asset.id a))
  ∧ urlAccessCache validated.1 !! accessToken = None.
Proof.
  intros Hauth Hrow Hmay Hsigned Hnow minted validated.
  destruct (getDownloadUrl_granted ctx u accessToken auditId now w a signedUrl)
    as [_ Hcached]; [done..|].
  fold minted in Hcached. subst validated.
  rewrite (validateDownloadToken_cases ctx u) by done.
  rewrite Hcached. simpl.
  rewrite bool_decide_eq_false_2 by (by intros ?).
  rewrite bool_decide_eq_false_2 by lia.
  split; [done|]. apply lookup_delete_eq.
Qed.

Lemma download_token_round_trip_witness :
  let minted := getDownloadUrl Scenario.bob "asset-1" "tok-2" "audit-2" 5000 Cases.shared in
  (validateDownloadToken Scenario.bob "tok-2" 95000 minted.1).2
  = inr (mkTokenValidation true "asset-1").
Proof.
  intros minted.
  destruct (download_token_round_trip Scenario.bob "user-b" "tok-2" "audit-2" 5000 95000
              Cases.shared
              (Asset.mk "asset-1" "user-a" "photo.jpg" "image/jpeg" 1024
                        "user-a/asset-1/photo.jpg" (Some "cafebabe") Ready 1 1000 2000)
              "https://blob/get/user-a/asset-1/photo.jpg?sig=1") as [Hvalid _].
  - by split.
  - reflexivity.
  - right. eexists. reflexivity.
  - reflexivity.
  - lia.
  - exact Hvalid.
Defined.

(** X14. A caller other than the one a token was minted for is refused and
    does not use the token up: the cache is as it was, and the rightful
    caller still validates the token afterwards, up to its expiry. *)
Theorem foreign_validation_keeps_token ctx' u' ctx accessToken now' now'' w e :
  authenticated ctx' u' → authenticated ctx (ce_userId e) →
  urlAccessCache w !! accessToken = Some e → u' ≠ ce_userId e →
  now'' ≤ ce_expiresAt e →
  let attempt := validateDownloadToken ctx' accessToken now' w in
  attempt = (w, inl (GraphQLError "Access denied" "FORBIDDEN"))
  ∧ (validateDownloadToken ctx accessToken now'' attempt.1).2
    = inr (mkTokenValidation true (ce_assetId e)).
Proof.
  intros Hauth' Hauth Hentry Hother Hnow attempt.
  assert (attempt = (w, inl (GraphQLError "Access denied" "FORBIDDEN"))) as ->.
  { subst attempt. rewrite (validateDownloadToken_cases ctx' u') by done.
    rewrite Hentry. by rewrite bool_decide_eq_true_2 by (by intros ?). }
  split; [done|]. simpl.
  rewrite (validateDownloadToken_cases ctx (ce_userId e)) by done.
  rewrite Hentry. rewrite bool_decide_eq_false_2 by (by intros ?).
  by rewrite bool_decide_eq_false_2 by lia.
Qed.

Lemma foreign_validation_keeps_token_witness :
  let attempt := validateDownloadToken Scenario.bob "tok-1" 6000 Cases.minted in
  attempt.2 = inl (GraphQLError "Access denied" "FORBIDDEN")
  ∧ (validateDownloadToken Scenario.alice "tok-1" 7000 attempt.1).2
    = inr (mkTokenValidation true "asset-1").
Proof.
  intros attempt.
  destruct (foreign_validation_keeps_token Scenario.bob "user-b" Scenario.alice "tok-1"
              6000 7000 Cases.minted (mkCacheEntry "user-a" "asset-1" 95000))
    as [Hrefused Hlater]; [by split|by split|reflexivity|done|simpl; lia|].
  fold attempt in Hrefused, Hlater. split; [by rewrite Hrefused|exact Hlater].
Defined.

(** X15. What [getDownloadUrl] writes. A request that is refused ([FORBIDDEN],
    a ledger error or a gateway error) writes nothing. A request that returns
    has cached its token for the caller and the asset with an expiry 90
    seconds after [now], and has appended at most its one audit row. No
    request changes the asset, share or ticket tables. *)
Theorem getDownloadUrl_writes ctx u assetId accessToken auditId now w :
  authenticated ctx u →
  let r := getDownloadUrl ctx assetId accessToken auditId now w in
  ((fails_with "FORBIDDEN" r ∨ (∃ code, r.2 = inl (PostgrestError code))
    ∨ (∃ message, r.2 = inl (StorageError message))) → r.1 = w)
  ∧ (accepted r →
     urlAccessCache r.1
     = <[accessToken := mkCacheEntry u assetId (now + 90000)]> (urlAccessCache w)
     ∧ (download_audit r.1 = download_audit w
        ∨ download_audit r.1 = download_audit w ++ [Audit.mk auditId assetId u now]))
  ∧ asset r.1 = asset w ∧ asset_share r.1 = asset_share w
  ∧ upload_ticket r.1 = upload_ticket w.
Proof.
  intros Hauth r. subst r.
  destruct (getDownloadUrl ctx assetId accessToken auditId now w) as [w' res] eqn:Hrun.
  unfold getDownloadUrl in Hrun.
  rewrite (bind_returned _ _ _ _ _ (requireAuth_authenticated _ _ _ Hauth)) in Hrun.
  unfold bind, gets, modify, query, rethrow, throw, ret, insert_audit in Hrun.
  unfold accepted, fails_with. simpl.
  repeat (case_match; simplify_eq; simpl in * );
    (split; [first [done|by intros [[? [=]]|[[? [=]]|[? [=]]]]]|]);
    (split; [first [done|intros _; split; [done|by (left + right)]]|done]).
Qed.

Lemma getDownloadUrl_writes_witness :
  (getDownloadUrl Scenario.bob "asset-1" "tok-2" "audit-2" 5000 Scenario.finalized).1
  = Scenario.finalized.
Proof.
  destruct (getDownloadUrl_writes Scenario.bob "user-b" "asset-1" "tok-2" "audit-2" 5000
              Scenario.finalized) as [Hnothing _]; [by split|].
  apply Hnothing. left. by eexists.
Defined.

(** X16. The sweep keeps exactly the cache entries that are not past their
    expiry. For a validation made at the time of the sweep or later it
    changes neither whether the call returns, nor the value returned, nor
    the code of the error thrown. The one difference it makes is the message
    of the [FORBIDDEN] error for a token that had expired:
    ["Invalid or expired access token"] in place of ["Token expired"], or
    of ["Access denied"] when the caller is not the one the token was
    cached for. *)
Theorem sweep_keeps_validation_outcomes now now' ctx accessToken w :
  now ≤ now' →
  let unswept := validateDownloadToken ctx accessToken now' w in
  let swept := validateDownloadToken ctx accessToken now' (sweep now w) in
  (∀ token e, urlAccessCache (sweep now w) !! token = Some e
              ↔ urlAccessCache w !! token = Some e ∧ now ≤ ce_expiresAt e)
  ∧ (∀ tv, swept.2 = inr tv ↔ unswept.2 = inr tv)
  ∧ (swept.2 = unswept.2
     ∨ ((unswept.2 = inl (GraphQLError "Token expired" "FORBIDDEN")
         ∨ unswept.2 = inl (GraphQLError "Access denied" "FORBIDDEN"))
        ∧ swept.2 = inl (GraphQLError "Invalid or expired access token" "FORBIDDEN")))
  ∧ (∀ code, fails_with code swept ↔ fails_with code unswept).
Proof.
  intros Hnow unswept swept.
  assert (∀ token e, urlAccessCache (sweep now w) !! token = Some e
                     ↔ urlAccessCache w !! token = Some e ∧ now ≤ ce_expiresAt e)
    as Hswept.
  { intros token e. unfold sweep. simpl. rewrite map_lookup_filter_Some. simpl.
    split; intros [? ?]; (split; [done|lia]). }
  assert (swept.2 = unswept.2
          ∨ ((unswept.2 = inl (GraphQLError "Token expired" "FORBIDDEN")
              ∨ unswept.2 = inl (GraphQLError "Access denied" "FORBIDDEN"))
             ∧ swept.2
               = inl (GraphQLError "Invalid or expired access token" "FORBIDDEN")))
    as Hcases.
  { subst unswept swept.
    destruct (userId ctx) as [u|] eqn:Hu; [destruct (decide (u = "")) as [->|Hne]|].
    - left. unfold validateDownloadToken.
      by rewrite !(bind_thrown _ _ _ _ _ (requireAuth_refuses ctx _ (or_intror Hu))).
    - assert (authenticated ctx u) as Hauth by done.
      rewrite !(validateDownloadToken_cases ctx u) by done.
      destruct (urlAccessCache w !! accessToken) as [e|] eqn:Hentry.
      + destruct (decide (now ≤ ce_expiresAt e)) as [Hlive|Hdead].
        * rewrite (proj2 (Hswept accessToken e) (conj Hentry Hlive)).
          left. by repeat case_bool_decide.
        * destruct (urlAccessCache (sweep now w) !! accessToken) as [e'|] eqn:Hswept'.
          { apply Hswept in Hswept' as [? ?]. simplify_eq; lia. }
          right. case_bool_decide; [by split; [right|]|].
          rewrite bool_decide_eq_true_2 by lia. by split; [left|].
      + destruct (urlAccessCache (sweep now w) !! accessToken) as [e'|] eqn:Hswept';
          [|by left].
        apply Hswept in Hswept' as [? ?]. simplify_eq.
    - left. unfold validateDownloadToken.
      by rewrite !(bind_thrown _ _ _ _ _ (requireAuth_refuses ctx _ (or_introl Hu))). }
  split; [done|]. split; [|split; [done|]].
  - intros tv. destruct Hcases as [-> | [[-> | ->] ->]]; [done|by split..].
  - intros code. unfold fails_with.
    destruct Hcases as [-> | [[-> | ->] ->]]; [done|..];
      split; intros [message [= _ <-]]; by eexists.
Qed.

Lemma sweep_keeps_validation_outcomes_witness :
  urlAccessCache (sweep 96000 Cases.minted) !! "tok-1" = None
  ∧ urlAccessCache (sweep 95000 Cases.minted) !! "tok-1"
    = Some (mkCacheEntry "user-a" "asset-1" 95000)
  ∧ (validateDownloadToken Scenario.alice "tok-1" 96000 Cases.minted).2
    = inl (GraphQLError "Token expired" "FORBIDDEN")
  ∧ fails_with "FORBIDDEN"
      (validateDownloadToken Scenario.alice "tok-1" 96000 (sweep 96000 Cases.minted)).
Proof.
  destruct (sweep_keeps_validation_outcomes 95000 95000 Scenario.alice "tok-1"
              Cases.minted) as [Hswept _]; [lia|].
  destruct (sweep_keeps_validation_outcomes 96000 96000 Scenario.alice "tok-1"
              Cases.minted) as (_ & _ & _ & Hcode); [lia|].
  split; [reflexivity|]. split; [apply Hswept; split; [reflexivity|simpl; lia]|].
  split; [reflexivity|]. apply Hcode. by exists "Token expired".
Defined.

(** ** finalizeUpload: the stored status and the one use of a ticket *)

(** X17. With an unused ticket of the caller, [finalizeUpload] returns the
    asset with the claimed hash and the given version stored; the status is
    [corrupt] exactly when the claimed hash is the empty string and [ready]
    otherwise; and afterwards no ticket of the asset is unused. *)
Theorem finalizeUpload_status_from_hash ctx u clientSha256 version now w t a :
  authenticated ctx u →
  filter (λ t, Ticket.asset_id t = Asset.id a ∧ Ticket.user_id t = u
               ∧ Ticket.used t = false) (upload_ticket w) = [t] →
  primary_key w → a ∈ asset w → int4 (Asset.size a) → int4 version →
  let r := finalizeUpload ctx (Asset.id a) clientSha256 version now w in
  ∃ n,
    r.2 = inr n
    ∧ n_id n = Asset.id a ∧ n_sha256 n = Some clientSha256 ∧ n_version n = version
    ∧ (n_status n = Corrupt ↔ clientSha256 = "")
    ∧ (n_status n = Ready ↔ clientSha256 ≠ "")
    ∧ Forall (λ t, Ticket.asset_id t = Asset.id a → Ticket.used t = true)
             (upload_ticket r.1).
Proof.
  intros Hauth Hlive Hpk Hin Hsize Hversion r.
  destruct (finalizeUpload_live_ticket ctx u clientSha256 version now w t a)
    as (Hreply & Htickets & _); [done..|].
  fold r in Hreply, Htickets. eexists. split; [exact Hreply|].
  simpl. do 3 (split; [done|]). split; [|split].
  - case_bool_decide; by split.
  - case_bool_decide; by split.
  - rewrite Htickets. apply Forall_fmap, Forall_forall. intros x _. simpl.
    destruct (decide (Ticket.asset_id x = Asset.id a)); [done|tauto].
Qed.

Lemma finalizeUpload_status_from_hash_witness :
  ∃ n,
    (finalizeUpload Scenario.alice "asset-1" "" 1 2000 Scenario.issued).2 = inr n
    ∧ n_sha256 n = Some "" ∧ (n_status n = Corrupt ↔ "" = "").
Proof.
  destruct (finalizeUpload_status_from_hash Scenario.alice "user-a" "" 1 2000
              Scenario.issued
              (ticket_row "user-a" "photo.jpg" "image/jpeg" 1024 "asset-1" "nonce-1" 1000)
              (draft_row "user-a" "photo.jpg" "image/jpeg" 1024 "asset-1" 1000))
    as (n & Hrun & _ & Hhash & _ & Hcorrupt & _).
  - by split.
  - reflexivity.
  - apply NoDup_singleton.
  - by apply list_elem_of_singleton.
  - unfold int4. simpl. lia.
  - unfold int4. lia.
  - by exists n.
Defined.

(** An update of [asset] leaves the other tables and the cache alone. *)
Lemma update_asset_other_tables (P : Asset.row → Prop) `{∀ a, Decision (P a)}
    patch now w :
  upload_ticket (update_asset P patch now w).1 = upload_ticket w
  ∧ asset_share (update_asset P patch now w).1 = asset_share w
  ∧ download_audit (update_asset P patch now w).1 = download_audit w
  ∧ users (update_asset P patch now w).1 = users w
  ∧ urlAccessCache (update_asset P patch now w).1 = urlAccessCache w.
Proof.
  unfold update_asset. case_bool_decide; [|done].
  by destruct (_ <$> filter P (asset w)) as [|? [|? ?]].
Qed.

(** A finalize that returns has marked the tickets of the asset used. *)
Lemma finalizeUpload_accepted_tickets ctx assetId clientSha256 version now w :
  accepted (finalizeUpload ctx assetId clientSha256 version now w) →
  upload_ticket (finalizeUpload ctx assetId clientSha256 version now w).1
  = (λ t, if decide (Ticket.asset_id t = assetId) then mark_used t else t)
      <$> upload_ticket w.
Proof.
  unfold accepted.
  destruct (finalizeUpload ctx assetId clientSha256 version now w) as [w' res] eqn:Hrun.
  unfold finalizeUpload, bind, requireAuth, gets, modify, query, rethrow, throw, ret
    in Hrun.
  destruct (userId ctx) as [u|]; [case_bool_decide|]; simplify_eq/=; try done.
  destruct (error (single _)); simplify_eq/=; try done.
  destruct (data (single _)); simplify_eq/=; try done.
  match type of Hrun with
  | context [@update_asset ?P ?D ?f ?n ?w1] =>
    destruct (update_asset_other_tables P f n w1) as (Hsame & _);
    destruct (@update_asset P D f n w1) as [w2 r2]
  end.
  simpl in *.
  destruct (error r2); simplify_eq/=; [done|].
  destruct (data r2); simplify_eq/=; [|done]. by intros _.
Qed.

(** X18. A ticket is used once: after a [finalizeUpload] that returned, any
    further [finalizeUpload] for the same asset, by whichever caller and
    with whichever hash and version, throws [INVALID_TICKET] and writes
    nothing. *)
Theorem finalizeUpload_once ctx assetId clientSha256 version now w ctx' u' :
  accepted (finalizeUpload ctx assetId clientSha256 version now w) →
  authenticated ctx' u' →
  let first := finalizeUpload ctx assetId clientSha256 version now w in
  ∀ clientSha256' version' now',
    finalizeUpload ctx' assetId clientSha256' version' now' first.1
    = (first.1, inl (GraphQLError "Invalid or used upload ticket" "INVALID_TICKET")).
Proof.
  intros Hacc Hauth first h' v' now'.
  apply (finalizeUpload_no_live_ticket ctx' u'); [done|].
  subst first. rewrite finalizeUpload_accepted_tickets by done.
  apply filter_none, Forall_fmap, Forall_forall. intros t _. simpl.
  destruct (decide (Ticket.asset_id t = assetId)); simpl; [|tauto].
  by intros (_ & _ & ?).
Qed.

Lemma finalizeUpload_once_witness :
  let first := finalizeUpload Scenario.alice "asset-1" "cafebabe" 1 2000 Scenario.issued in
  (finalizeUpload Scenario.alice "asset-1" "cafebabe" 1 2500 first.1).2
  = inl (GraphQLError "Invalid or used upload ticket" "INVALID_TICKET").
Proof.
  intros first.
  assert (authenticated Scenario.alice "user-a") as Hauth by by split.
  exact (f_equal snd
           (finalizeUpload_once Scenario.alice "asset-1" "cafebabe" 1 2000 Scenario.issued
              Scenario.alice "user-a" eq_refl Hauth "cafebabe" 1 2500)).
Defined.

(** ** renameAsset: what a rename leaves alone *)

(** X19. A rename that returns has rewritten the file name, the version
    and the update time of the row its guard selects, and nothing else: every
    other column of that row, every other row, and every other table are as
    they were. A rename that throws has written nothing. *)
Theorem renameAsset_frame ctx assetId filename version now w :
  let r := renameAsset ctx assetId filename version now w in
  (accepted r →
   ∃ u, authenticated ctx u
        ∧ asset r.1
          = (λ x, if decide (Asset.id x = assetId ∧ Asset.owner_id x = u
                             ∧ Asset.version x = version)
                  then Asset.mk (Asset.id x) (Asset.owner_id x) filename (Asset.mime x)
                                (Asset.size x) (Asset.storage_path x) (Asset.sha256 x)
                                (Asset.status x) (version + 1) (Asset.created_at x) now
                  else x) <$> asset w
        ∧ asset_share r.1 = asset_share w ∧ upload_ticket r.1 = upload_ticket w
        ∧ download_audit r.1 = download_audit w
        ∧ urlAccessCache r.1 = urlAccessCache w)
  ∧ (¬ accepted r → r.1 = w).
Proof.
  intros r. split.
  - intros Hacc. apply renameAsset_accepted_inv in Hacc as (u & a & Hauth & _ & Hworld).
    exists u. split; [done|]. subst r. by rewrite Hworld.
  - subst r. unfold accepted.
    unfold renameAsset, bind, requireAuth, query, rethrow, throw, ret.
    destruct (userId ctx) as [u|]; [case_bool_decide|]; simpl; try done.
    match goal with
    | |- context [update_asset ?P ?f now w] =>
      pose proof (update_asset_error P f now w) as Herr;
      pose proof (update_asset_no_data P f now w) as Hnone;
      destruct (update_asset P f now w) as [w1 r1]
    end.
    simpl in *. destruct (error r1) as [e|].
    + intros _. rewrite Herr by done. by case_bool_decide.
    + destruct (data r1); [done|]. intros _. by rewrite Hnone.
Qed.

Lemma renameAsset_frame_witness :
  let r := renameAsset Scenario.alice "asset-1" "new.jpg" 1 3000 Cases.shared in
  Asset.filename <$> asset r.1 = ["new.jpg"]
  ∧ Asset.storage_path <$> asset r.1 = ["user-a/asset-1/photo.jpg"]
  ∧ asset_share r.1 = asset_share Cases.shared.
Proof.
  intros r.
  destruct (renameAsset_frame Scenario.alice "asset-1" "new.jpg" 1 3000 Cases.shared)
    as [Hframe _].
  destruct Hframe as (u & _ & _ & Hshare & _); [reflexivity|].
  split; [reflexivity|]. split; [reflexivity|exact Hshare].
Defined.

(** ** shareAsset, revokeShare and deleteAsset *)

(** Filters that agree on the rows of a table select the same rows. *)
Lemma filter_agree {A} (P Q : A → Prop) `{∀ x, Decision (P x)} `{∀ x, Decision (Q x)}
    (l : list A) :
  (∀ x, x ∈ l → (P x ↔ Q x)) → filter P l = filter Q l.
Proof.
  induction l as [|x l IH]; intros Hagree; [done|].
  assert (filter P l = filter Q l) as Htail.
  { apply IH. intros y Hy. apply Hagree. by apply list_elem_of_further. }
  destruct (decide (P x)) as [HP|HP].
  - rewrite (filter_cons_True P), (filter_cons_True Q), Htail; [done| |done].
    apply Hagree; [apply list_elem_of_here|done].
  - rewrite (filter_cons_False P), (filter_cons_False Q); [done| |done].
    intros HQ. apply HP. apply Hagree; [apply list_elem_of_here|done].
Qed.

(** Two rows of a table with the same key are the same row. *)
Lemma key_determines_row {A K} `{EqDecision K} (key : A → K) (l : list A) (x y : A) :
  NoDup (key <$> l) → x ∈ l → y ∈ l → key x = key y → x = y.
Proof.
  intros Hnd Hx Hy Hkey.
  assert (x ∈ filter (λ z, key z = key y) l) as Hin by by apply list_elem_of_filter.
  rewrite (filter_key key l y) in Hin by done.
  by apply list_elem_of_singleton in Hin.
Qed.

(** The row the version guard selects is a row of the asset, and under the
    primary key it is the only row of its id. *)
Lemma guarded_row_is_the_row w assetId u version a :
  primary_key w →
  filter (λ x, Asset.id x = assetId ∧ Asset.owner_id x = u ∧ Asset.version x = version)
         (asset w) = [a] →
  a ∈ asset w ∧ Asset.id a = assetId ∧ Asset.owner_id a = u ∧ Asset.version a = version
  ∧ filter (λ x, Asset.id x = assetId) (asset w) = [a].
Proof.
  intros Hpk Hguard.
  assert (a ∈ filter (λ x, Asset.id x = assetId ∧ Asset.owner_id x = u
                           ∧ Asset.version x = version) (asset w)) as Hin.
  { rewrite Hguard. by apply list_elem_of_singleton. }
  apply list_elem_of_filter in Hin as [(Hid & Ho & Hv) Hin].
  do 4 (split; [done|]). subst assetId. by apply (filter_key Asset.id).
Qed.

(** An upsert leaves the assets, the users, the cache and the gateway. *)
Lemma upsert_share_other_tables s w :
  asset (upsert_share s w).1 = asset w
  ∧ users (upsert_share s w).1 = users w
  ∧ urlAccessCache (upsert_share s w).1 = urlAccessCache w
  ∧ storage (upsert_share s w).1 = storage w.
Proof. unfold upsert_share. by repeat case_bool_decide. Qed.

(** Replacing the row of a share id by a row that no other row collides
    with leaves that row as the only one of its asset and recipient. *)
Lemma replaced_share_grant (s : Share.row) (l : list Share.row) :
  NoDup (Share.id <$> l) →
  ¬ Exists (λ x, Share.id x ≠ Share.id s ∧ Share.asset_id x = Share.asset_id s
                 ∧ Share.to_user x = Share.to_user s) l →
  filter (λ x, Share.asset_id x = Share.asset_id s ∧ Share.to_user x = Share.to_user s
               ∧ Share.can_download x = true)
         ((λ x, if decide (Share.id x = Share.id s) then s else x) <$> l)
  = if bool_decide (Exists (λ x, Share.id x = Share.id s) l)
    then (if Share.can_download s then [s] else [])
    else [].
Proof.
  induction l as [|x l IH]; intros Hnd Hconf.
  - rewrite bool_decide_eq_false_2; [done|]. by intros ?%Exists_nil.
  - rewrite fmap_cons in Hnd. apply NoDup_cons in Hnd as [Hx Hnd].
    assert (¬ Exists (λ x, Share.id x ≠ Share.id s ∧ Share.asset_id x = Share.asset_id s
                           ∧ Share.to_user x = Share.to_user s) l) as Hconf'.
    { intros Hex. apply Hconf. by apply Exists_cons_tl. }
    specialize (IH Hnd Hconf'). rewrite fmap_cons.
    destruct (decide (Share.id x = Share.id s)) as [Heq|Hneq].
    + assert (¬ Exists (λ x, Share.id x = Share.id s) l) as Hnone.
      { intros Hex. apply Exists_exists in Hex as (y & Hy & Hys).
        apply Hx. rewrite Heq, <- Hys. by apply list_elem_of_fmap_2. }
      rewrite (bool_decide_eq_false_2 _ Hnone) in IH.
      rewrite bool_decide_eq_true_2 by (by apply Exists_cons_hd).
      destruct (Share.can_download s) eqn:Hcan.
      * rewrite filter_cons_True by done. by rewrite IH.
      * rewrite filter_cons_False; [done|]. intros (_ & _ & Htrue). congruence.
    + rewrite filter_cons_False.
      * rewrite IH.
        rewrite (bool_decide_ext (Exists (λ x, Share.id x = Share.id s) (x :: l))
                                 (Exists (λ x, Share.id x = Share.id s) l)); [done|].
        rewrite Exists_cons.
        split; [intros [Heq|Hex]; [by destruct Hneq|done]|by right].
      * intros (Ha & Ht & _). apply Hconf. by apply Exists_cons_hd.
Qed.

(** After an upsert that the ledger took, the grants with [can_download]
    of the asset and the recipient are the upserted row, or none when it
    does not allow the download. *)
Lemma upsert_share_grant s w :
  NoDup (Share.id <$> asset_share w) →
  error (upsert_share s w).2 = None →
  filter (λ x, Share.asset_id x = Share.asset_id s ∧ Share.to_user x = Share.to_user s
               ∧ Share.can_download x = true) (asset_share (upsert_share s w).1)
  = if Share.can_download s then [s] else [].
Proof.
  intros Hnd. unfold upsert_share.
  case_bool_decide as Hconf; [done|]. case_bool_decide as Hfk; [|done].
  case_bool_decide as Hid; simpl; intros _.
  - rewrite replaced_share_grant by done. by rewrite bool_decide_eq_true_2.
  - rewrite filter_app.
    rewrite (filter_none _ (asset_share w)).
    + destruct (Share.can_download s) eqn:Hcan.
      * by rewrite filter_cons_True.
      * rewrite filter_cons_False; [done|]. intros (_ & _ & Htrue). congruence.
    + apply Forall_forall. intros x Hx (Ha & Ht & _). apply Hconf.
      apply Exists_exists. exists x. split; [done|]. split; [|done].
      intros Heq. apply Hid. apply Exists_exists. by exists x.
Qed.

(** X20. What a share means for the recipient. After a [shareAsset] that
    returned, with [canDownload] the recipient obtains a download link for
    the asset; without [canDownload] a recipient who is not the owner is
    refused with [FORBIDDEN]. *)
Theorem shareAsset_decides_download ctx ctx' assetId toEmail canDownload version shareId
    now w usr accessToken auditId now' :
  primary_key w → NoDup (Share.id <$> asset_share w) →
  accepted (shareAsset ctx assetId toEmail canDownload version shareId now w) →
  filter (λ x, User.email x = toEmail) (users w) = [usr] →
  authenticated ctx' (User.id usr) →
  let w' := (shareAsset ctx assetId toEmail canDownload version shareId now w).1 in
  ∃ a,
    a ∈ asset w ∧ Asset.id a = assetId ∧ authenticated ctx (Asset.owner_id a)
    ∧ (canDownload = true →
       ∀ signedUrl,
         createSignedUrl (storage w) (Asset.storage_path a) 90 = ok signedUrl →
         (getDownloadUrl ctx' assetId accessToken auditId now' w').2
         = inr (mkDownloadLink (signedUrl +:+ "&access_token=" +:+ accessToken)
                               (now' + 90000)))
    ∧ (canDownload = false → Asset.owner_id a ≠ User.id usr →
       getDownloadUrl ctx' assetId accessToken auditId now' w'
       = (w', inl (GraphQLError "Access denied" "FORBIDDEN"))).
Proof.
  intros Hpk Hnd Hacc Husr Hauth' w'.
  destruct (shareAsset_accepted_inv _ _ _ _ _ _ _ _ Hacc)
    as (u & a & usr0 & Hauth & Hguard & Husr0 & Htaken & Hworld).
  rewrite Husr in Husr0. simplify_eq.
  destruct (guarded_row_is_the_row _ _ _ _ _ Hpk Hguard) as (Hin & Hid & Ho & _ & Hrow).
  destruct (upsert_share_other_tables
              (Share.mk shareId assetId (User.id usr0) canDownload now) w)
    as (Hassets & _ & _ & Hstorage).
  pose proof (upsert_share_grant _ w Hnd Htaken) as Hgrant. simpl in Hgrant.
  fold w' in Hworld. rewrite <- Hworld in Hassets, Hstorage, Hgrant.
  exists a. split; [done|]. split; [done|]. split; [by rewrite Ho|].
  subst assetId. split.
  - intros -> signedUrl Hsigned.
    apply (getDownloadUrl_granted ctx' (User.id usr0)); [done|by rewrite Hassets| |].
    + right. by eexists.
    + by rewrite Hstorage.
  - intros -> Hother.
    by apply (getDownloadUrl_forbidden ctx' (User.id usr0)); [|rewrite Hassets| |].
Qed.

Lemma shareAsset_decides_download_witness :
  (getDownloadUrl Scenario.bob "asset-1" "tok-2" "audit-2" 5000 Cases.shared).2
  = inr (mkDownloadLink
           "https://blob/get/user-a/asset-1/photo.jpg?sig=1&access_token=tok-2" 95000).
Proof.
  assert (authenticated Scenario.bob "user-b") as Hbob by by split.
  destruct (shareAsset_decides_download Scenario.alice Scenario.bob "asset-1"
              "b@example.org" true 1 "share-1" 4000 Scenario.finalized
              (User.mk "user-b" "b@example.org") "tok-2" "audit-2" 5000)
    as (a & Hin & _ & _ & Hyes & _).
  - apply NoDup_singleton.
  - apply NoDup_nil_2.
  - reflexivity.
  - reflexivity.
  - exact Hbob.
  - apply list_elem_of_singleton in Hin. subst a.
    exact (Hyes eq_refl "https://blob/get/user-a/asset-1/photo.jpg?sig=1" eq_refl).
Defined.

(** X21. What a revoke means for the recipient. After a [revokeShare] that
    returned, a recipient who is not the owner is refused a download link
    with [FORBIDDEN], whether or not a grant existed before; the grants of
    other assets and of other recipients are kept. *)
Theorem revokeShare_withdraws_download ctx ctx' assetId toEmail version w usr
    accessToken auditId now' :
  primary_key w →
  accepted (revokeShare ctx assetId toEmail version w) →
  filter (λ x, User.email x = toEmail) (users w) = [usr] →
  authenticated ctx' (User.id usr) →
  let w' := (revokeShare ctx assetId toEmail version w).1 in
  ∃ a,
    a ∈ asset w ∧ Asset.id a = assetId ∧ authenticated ctx (Asset.owner_id a)
    ∧ (Asset.owner_id a ≠ User.id usr →
       getDownloadUrl ctx' assetId accessToken auditId now' w'
       = (w', inl (GraphQLError "Access denied" "FORBIDDEN")))
    ∧ (∀ s, s ∈ asset_share w →
            ¬ (Share.asset_id s = assetId ∧ Share.to_user s = User.id usr) →
            s ∈ asset_share w').
Proof.
  intros Hpk Hacc Husr Hauth' w'.
  destruct (revokeShare_accepted_inv _ _ _ _ _ Hacc)
    as (u & a & usr0 & Hauth & Hguard & Husr0 & Hworld).
  rewrite Husr in Husr0. simplify_eq.
  destruct (guarded_row_is_the_row _ _ _ _ _ Hpk Hguard) as (Hin & Hid & Ho & _ & Hrow).
  fold w' in Hworld.
  exists a. split; [done|]. split; [done|]. split; [by rewrite Ho|]. split.
  - intros Hother. subst assetId.
    apply (getDownloadUrl_forbidden ctx' (User.id usr0)); [done| |done|].
    + by rewrite Hworld.
    + rewrite Hworld. simpl. apply filter_none, Forall_forall.
      intros s Hs (Ha & Ht & _). apply list_elem_of_filter in Hs as [Hs _]. by apply Hs.
  - intros s Hs Hnot. rewrite Hworld. simpl. by apply list_elem_of_filter.
Qed.

Lemma revokeShare_withdraws_download_witness :
  let w' := (revokeShare Scenario.alice "asset-1" "b@example.org" 1 Cases.shared).1 in
  getDownloadUrl Scenario.bob "asset-1" "tok-3" "audit-3" 6000 w'
  = (w', inl (GraphQLError "Access denied" "FORBIDDEN")).
Proof.
  intros w'.
  assert (authenticated Scenario.bob "user-b") as Hbob by by split.
  destruct (revokeShare_withdraws_download Scenario.alice Scenario.bob "asset-1"
              "b@example.org" 1 Cases.shared
              (User.mk "user-b" "b@example.org") "tok-3" "audit-3" 6000)
    as (a & Hin & _ & _ & Hno & _).
  - apply NoDup_singleton.
  - reflexivity.
  - reflexivity.
  - exact Hbob.
  - apply list_elem_of_singleton in Hin. subst a.
    apply Hno. discriminate.
Defined.

(** X22. A grant cannot be changed by sharing again. Each [shareAsset]
    draws a fresh share id, so its upsert never meets the existing row of
    the asset and the recipient on the primary key: the ledger refuses the
    second row with [23505], the call rethrows it, and nothing is written,
    whichever [canDownload] is asked for. *)
Theorem shareAsset_again_refused ctx u assetId toEmail canDownload version shareId now
    w a usr g :
  authenticated ctx u →
  filter (λ x, Asset.id x = assetId ∧ Asset.owner_id x = u ∧ Asset.version x = version)
         (asset w) = [a] →
  filter (λ x, User.email x = toEmail) (users w) = [usr] →
  g ∈ asset_share w → Share.asset_id g = assetId → Share.to_user g = User.id usr →
  Share.id g ≠ shareId →
  shareAsset ctx assetId toEmail canDownload version shareId now w
  = (w, inl (PostgrestError "23505")).
Proof.
  intros Hauth Hguard Husr Hg Ha Ht Hfresh.
  unfold shareAsset. as_user Hauth.
  unfold bind, gets, query, guarded_asset, user_by_email, upsert_share.
  rewrite Hguard. simpl. rewrite Husr. simpl.
  rewrite bool_decide_eq_true_2; [done|].
  apply Exists_exists. by exists g.
Qed.

Lemma shareAsset_again_refused_witness :
  shareAsset Scenario.alice "asset-1" "b@example.org" false 1 "share-2" 4500 Cases.shared
  = (Cases.shared, inl (PostgrestError "23505")).
Proof.
  assert (authenticated Scenario.alice "user-a") as Halice by by split.
  apply (shareAsset_again_refused Scenario.alice "user-a" "asset-1" "b@example.org" false 1
           "share-2" 4500 Cases.shared
           (Asset.mk "asset-1" "user-a" "photo.jpg" "image/jpeg" 1024
                     "user-a/asset-1/photo.jpg" (Some "cafebabe") Ready 1 1000 2000)
           (User.mk "user-b" "b@example.org")
           (Share.mk "share-1" "asset-1" "user-b" true 4000));
    [exact Halice|reflexivity|reflexivity| |reflexivity|reflexivity|discriminate].
  by apply list_elem_of_singleton.
Defined.

(** X23. The guard of [shareAsset], [revokeShare] and [deleteAsset]. When
    no asset of the caller has the given id at the given version, the three
    calls throw the [PGRST116] error of [.single()] as it came, not a
    [CONFLICT] or [NOT_FOUND] error, and write nothing. When the guard
    passes and no user has the given e-mail, [shareAsset] and [revokeShare]
    throw [NOT_FOUND] and write nothing. *)
Theorem guarded_calls_refuse ctx u assetId toEmail canDownload version shareId removed
    now w :
  authenticated ctx u →
  (filter (λ x, Asset.id x = assetId ∧ Asset.owner_id x = u ∧ Asset.version x = version)
          (asset w) = [] →
   shareAsset ctx assetId toEmail canDownload version shareId now w
   = (w, inl (PostgrestError "PGRST116"))
   ∧ revokeShare ctx assetId toEmail version w = (w, inl (PostgrestError "PGRST116"))
   ∧ deleteAsset ctx assetId version removed w = (w, inl (PostgrestError "PGRST116")))
  ∧ (∀ a,
       filter (λ x, Asset.id x = assetId ∧ Asset.owner_id x = u
                    ∧ Asset.version x = version) (asset w) = [a] →
       filter (λ x, User.email x = toEmail) (users w) = [] →
       shareAsset ctx assetId toEmail canDownload version shareId now w
       = (w, inl (GraphQLError "User not found" "NOT_FOUND"))
       ∧ revokeShare ctx assetId toEmail version w
         = (w, inl (GraphQLError "User not found" "NOT_FOUND"))).
Proof.
  intros Hauth. split.
  - intros Hnone. unfold shareAsset, revokeShare, deleteAsset.
    split; [|split]; as_user Hauth; unfold bind, gets, guarded_asset; by rewrite Hnone.
  - intros a Hguard Hnouser. unfold shareAsset, revokeShare.
    split; as_user Hauth; unfold bind, gets, guarded_asset, user_by_email;
      rewrite Hguard; simpl; by rewrite Hnouser.
Qed.

Lemma guarded_calls_refuse_witness :
  deleteAsset Scenario.alice "asset-1" 7 true Scenario.finalized
  = (Scenario.finalized, inl (PostgrestError "PGRST116"))
  ∧ shareAsset Scenario.alice "asset-1" "nobody@example.org" true 1 "share-1" 4000
               Scenario.finalized
    = (Scenario.finalized, inl (GraphQLError "User not found" "NOT_FOUND")).
Proof.
  assert (authenticated Scenario.alice "user-a") as Halice by by split.
  split.
  - by apply (guarded_calls_refuse Scenario.alice "user-a" "asset-1" "b@example.org" true 7
                "share-1" true 4000 Scenario.finalized Halice).
  - by eapply (guarded_calls_refuse Scenario.alice "user-a" "asset-1" "nobody@example.org"
                 true 1 "share-1" true 4000 Scenario.finalized Halice).
Defined.

(** X24. [deleteAsset] under a guard that passes always returns [true],
    whether or not the gateway removed the object. Afterwards the ledger
    has no asset row, grant, ticket or audit row of the asset id, and the
    rows of every other asset are as they were; the cached download tokens
    are not touched. *)
Theorem deleteAsset_cascade ctx u assetId version removed w a :
  authenticated ctx u → primary_key w →
  filter (λ x, Asset.id x = assetId ∧ Asset.owner_id x = u ∧ Asset.version x = version)
         (asset w) = [a] →
  let r := deleteAsset ctx assetId version removed w in
  r.2 = inr true
  ∧ asset r.1 = filter (λ x, Asset.id x ≠ assetId) (asset w)
  ∧ asset_share r.1 = filter (λ s, Share.asset_id s ≠ assetId) (asset_share w)
  ∧ upload_ticket r.1 = filter (λ t, Ticket.asset_id t ≠ assetId) (upload_ticket w)
  ∧ download_audit r.1 = filter (λ x, Audit.asset_id x ≠ assetId) (download_audit w)
  ∧ urlAccessCache r.1 = urlAccessCache w
  ∧ (removed = true → download (storage r.1) (Asset.storage_path a) = None).
Proof.
  intros Hauth Hpk Hguard r.
  destruct (guarded_row_is_the_row _ _ _ _ _ Hpk Hguard) as (Hin & Hid & Ho & _ & Hrow).
  assert (filter (λ x, Asset.id x = assetId ∧ Asset.owner_id x = u) (asset w) = [a])
    as Hgone.
  { rewrite filter_conj, Hrow. by rewrite filter_cons_True. }
  assert (∀ k : string, k ∉ [assetId] ↔ k ≠ assetId) as Hnotin.
  { intros k. by rewrite list_elem_of_singleton. }
  subst r. unfold deleteAsset. as_user Hauth.
  unfold bind, gets, guarded_asset, modify, query, delete_asset. rewrite Hguard. simpl.
  assert (asset (remove_object removed (Asset.storage_path a) w) = asset w
          ∧ asset_share (remove_object removed (Asset.storage_path a) w) = asset_share w
          ∧ upload_ticket (remove_object removed (Asset.storage_path a) w) = upload_ticket w
          ∧ download_audit (remove_object removed (Asset.storage_path a) w)
            = download_audit w
          ∧ urlAccessCache (remove_object removed (Asset.storage_path a) w)
            = urlAccessCache w) as (-> & -> & -> & -> & ->)
    by (by destruct removed).
  rewrite Hgone. simpl. rewrite Hid.
  split; [done|]. split; [|split; [|split; [|split; [|split]]]].
  - apply filter_agree. intros x Hx. split.
    + intros Hnot Hx'. apply Hnot. split; [done|].
      assert (x = a) as ->; [|done].
      apply (key_determines_row Asset.id (asset w)); [exact Hpk|done|done|congruence].
    + intros Hne [Hx' _]. by apply Hne.
  - apply filter_agree. intros x _. apply Hnotin.
  - apply filter_agree. intros x _. apply Hnotin.
  - apply filter_agree. intros x _. apply Hnotin.
  - done.
  - intros ->. simpl. by rewrite bool_decide_eq_true_2.
Qed.

Lemma deleteAsset_cascade_witness :
  let r := deleteAsset Scenario.alice "asset-1" 1 false Cases.shared in
  r.2 = inr true ∧ asset r.1 = [] ∧ asset_share r.1 = [] ∧ upload_ticket r.1 = [].
Proof.
  intros r.
  assert (authenticated Scenario.alice "user-a") as Halice by by split.
  destruct (deleteAsset_cascade Scenario.alice "user-a" "asset-1" 1 false Cases.shared
              (Asset.mk "asset-1" "user-a" "photo.jpg" "image/jpeg" 1024
                        "user-a/asset-1/photo.jpg" (Some "cafebabe") Ready 1 1000 2000)
              Halice)
    as (Hret & Hassets & Hshares & Htickets & _).
  - apply NoDup_singleton.
  - reflexivity.
  - fold r in Hret, Hassets, Hshares, Htickets.
    rewrite Hret, Hassets, Hshares, Htickets. by repeat split.
Defined.

(** ** What a call can write *)

Lemma createUploadUrl_world ctx filename mime size assetId nonce now w :
  let r := createUploadUrl ctx filename mime size assetId nonce now w in
  r.1 = w
  ∨ ∃ u,
      userId ctx = Some u ∧ mime ∈ ALLOWED_MIMES
      ∧ (r.1 = set_asset (asset w ++ [draft_row u filename mime size assetId now]) w
         ∨ r.1 = set_upload_ticket
                   (upload_ticket w ++ [ticket_row u filename mime size assetId nonce now])
                   (set_asset (asset w ++ [draft_row u filename mime size assetId now]) w)).
Proof.
  intros r. subst r.
  unfold createUploadUrl, bind, requireAuth, gets, query, rethrow, throw, ret.
  destruct (userId ctx) as [u|]; [case_bool_decide|]; simpl; try by left.
  case_bool_decide as Hmime; [|by left].
  unfold insert_asset, insert_ticket, draft_row, ticket_row, TEN_MINUTES.
  repeat (case_bool_decide; simpl); repeat (case_match; simpl);
    first [by left
          | right; exists u; split; [done|]; split; [done|]; first [by left | by right]].
Qed.

Lemma finalizeUpload_world ctx assetId clientSha256 version now w :
  let r := finalizeUpload ctx assetId clientSha256 version now w in
  let marked := set_upload_ticket
                  ((λ t, if decide (Ticket.asset_id t = assetId) then mark_used t else t)
                     <$> upload_ticket w) w in
  let status := if bool_decide (clientSha256 = "") then Corrupt else Ready in
  r.1 = w ∨ r.1 = marked
  ∨ r.1 = set_asset
            ((λ a, if decide (Asset.id a = assetId)
                   then touch now (finalize_patch clientSha256 status version a) else a)
               <$> asset w) marked.
Proof.
  intros r marked status. subst r marked status.
  unfold finalizeUpload, bind, requireAuth, gets, modify, query, rethrow, throw, ret,
    update_asset.
  destruct (userId ctx) as [u|]; [case_bool_decide|]; simpl; try by left.
  destruct (error (single _)); simpl; [by left|].
  destruct (data (single _)); simpl; [|by left].
  case_bool_decide; simpl; [|by right; left].
  destruct (_ <$> filter _ (asset w)) as [|? [|? ?]]; simpl;
    first [by right; left | by right; right].
Qed.

Lemma renameAsset_world ctx assetId filename version now w :
  let r := renameAsset ctx assetId filename version now w in
  r.1 = w
  ∨ ∃ u, r.1 = set_asset
                 ((λ a, if decide (Asset.id a = assetId ∧ Asset.owner_id a = u
                                   ∧ Asset.version a = version)
                        then touch now (rename_patch filename version a) else a)
                    <$> asset w) w.
Proof.
  intros r. subst r.
  unfold renameAsset, bind, requireAuth, query, rethrow, throw, ret, update_asset.
  destruct (userId ctx) as [u|]; [case_bool_decide|]; simpl; try by left.
  case_bool_decide; simpl; [|by left].
  destruct (_ <$> filter _ (asset w)) as [|? [|? ?]]; simpl;
    first [by left | right; by exists u].
Qed.

Lemma shareAsset_world ctx assetId toEmail canDownload version shareId now w :
  let r := shareAsset ctx assetId toEmail canDownload version shareId now w in
  r.1 = w
  ∨ ∃ s, Exists (λ a, Asset.id a = Share.asset_id s) (asset w)
         ∧ (r.1 = set_asset_share
                    ((λ x, if decide (Share.id x = Share.id s) then s else x)
                       <$> asset_share w) w
            ∨ r.1 = set_asset_share (asset_share w ++ [s]) w).
Proof.
  intros r. subst r.
  unfold shareAsset, bind, requireAuth, gets, query, rethrow, throw, ret,
    guarded_asset, user_by_email.
  destruct (userId ctx) as [u|]; [case_bool_decide|]; simpl; try by left.
  destruct (filter _ (asset w)) as [|a [|? ?]]; simpl; try by left.
  destruct (filter _ (users w)) as [|usr [|? ?]]; simpl; try by left.
  unfold upsert_share.
  case_bool_decide; simpl; [by left|].
  case_bool_decide as Hfk; simpl; [|by left].
  case_bool_decide; simpl; right;
    exists (Share.mk shareId assetId (User.id usr) canDownload now);
    (split; [exact Hfk|]); first [by left | by right].
Qed.

Lemma revokeShare_world ctx assetId toEmail version w :
  let r := revokeShare ctx assetId toEmail version w in
  r.1 = w
  ∨ ∃ to_user, r.1 = set_asset_share
                       (filter (λ s, ¬ (Share.asset_id s = assetId
                                        ∧ Share.to_user s = to_user))
                               (asset_share w)) w.
Proof.
  intros r. subst r.
  unfold revokeShare, bind, requireAuth, gets, modify, rethrow, throw, ret,
    guarded_asset, user_by_email.
  destruct (userId ctx) as [u|]; [case_bool_decide|]; simpl; try by left.
  destruct (filter _ (asset w)) as [|a [|? ?]]; simpl; try by left.
  destruct (filter _ (users w)) as [|usr [|? ?]]; simpl; try by left.
  right. by exists (User.id usr).
Qed.

Lemma deleteAsset_world ctx assetId version removed w :
  let r := deleteAsset ctx assetId version removed w in
  r.1 = w
  ∨ ∃ u path,
      r.1 = (delete_asset (λ x, Asset.id x = assetId ∧ Asset.owner_id x = u)
                          (remove_object removed path w)).1.
Proof.
  intros r. subst r.
  unfold deleteAsset, bind, requireAuth, gets, modify, query, rethrow, throw, ret,
    guarded_asset.
  destruct (userId ctx) as [u|]; [case_bool_decide|]; simpl; try by left.
  destruct (filter _ (asset w)) as [|a [|? ?]]; simpl; try by left.
  right. by exists u, (Asset.storage_path a).
Qed.

Lemma getDownloadUrl_world ctx assetId accessToken auditId now w :
  let r := getDownloadUrl ctx assetId accessToken auditId now w in
  r.1 = w
  ∨ ∃ cache,
      r.1 = set_urlAccessCache cache w
      ∨ ∃ row, Exists (λ a, Asset.id a = Audit.asset_id row) (asset w)
               ∧ r.1 = set_download_audit (download_audit w ++ [row])
                                          (set_urlAccessCache cache w).
Proof.
  intros r. subst r.
  unfold getDownloadUrl, bind, requireAuth, gets, modify, query, rethrow, throw, ret,
    insert_audit.
  destruct (userId ctx) as [u|]; [case_bool_decide|]; simpl; try by left.
  destruct (filter _ (asset w)) as [|a [|? ?]]; simpl; try by left.
  assert (∀ (granted : World * (Error + unit)),
            granted = (w, inr tt) ∨ (∃ e, granted = (w, inl e)) →
            ∀ k : unit → Resolver DownloadLink,
              (∀ x, (k x w).1 = w
                    ∨ ∃ cache,
                        (k x w).1 = set_urlAccessCache cache w
                        ∨ ∃ row, Exists (λ a, Asset.id a = Audit.asset_id row) (asset w)
                                 ∧ (k x w).1
                                   = set_download_audit (download_audit w ++ [row])
                                                        (set_urlAccessCache cache w)) →
              (let '(w', s) := granted in
               match s with inl e => (w', inl e) | inr x => k x w' end).1 = w
              ∨ ∃ cache,
                  (let '(w', s) := granted in
                   match s with inl e => (w', inl e) | inr x => k x w' end).1
                  = set_urlAccessCache cache w
                  ∨ ∃ row, Exists (λ a, Asset.id a = Audit.asset_id row) (asset w)
                           ∧ (let '(w', s) := granted in
                              match s with inl e => (w', inl e) | inr x => k x w' end).1
                             = set_download_audit (download_audit w ++ [row])
                                                  (set_urlAccessCache cache w)) as Hstep.
  { intros granted [-> | [e ->]] k Hk; [apply Hk|by left]. }
  apply Hstep.
  - case_bool_decide; simpl; [|by left].
    destruct (error (maybeSingle _)); simpl; [right; by eexists|].
    destruct (data (maybeSingle _)); simpl; [by left|right; by eexists].
  - intros _. destruct (error (createSignedUrl _ _ _)); simpl; [by left|].
    case_bool_decide; simpl.
    + right. eexists. left. by destruct (data (createSignedUrl _ _ _)).
    + case_bool_decide as Hfk; simpl.
      * right. eexists. right. exists (Audit.mk auditId assetId u now).
        split; [exact Hfk|]. by destruct (data (createSignedUrl _ _ _)).
      * right. eexists. left. by destruct (data (createSignedUrl _ _ _)).
Qed.

Lemma validateDownloadToken_world ctx accessToken now w :
  let r := validateDownloadToken ctx accessToken now w in
  r.1 = w ∨ ∃ cache, r.1 = set_urlAccessCache cache w.
Proof.
  intros r. subst r.
  unfold validateDownloadToken, bind, requireAuth, gets, modify, throw, ret.
  destruct (userId ctx) as [u|]; [case_bool_decide|]; simpl; try by left.
  repeat (case_match; simplify_eq; simpl; try by left); right; by eexists.
Qed.

(** ** The asset rows after every call *)

Lemma asset_row_ok_draft u filename mime size assetId now :
  mime ∈ ALLOWED_MIMES → asset_row_ok (draft_row u filename mime size assetId now).
Proof. intros Hmime. split; [by exists filename|]. by split. Qed.

Lemma asset_row_ok_renamed filename version now a :
  asset_row_ok a → asset_row_ok (touch now (rename_patch filename version a)).
Proof. by intros (Hpath & Hmime & Hstatus). Qed.

Lemma asset_row_ok_finalized clientSha256 version now a :
  asset_row_ok a →
  asset_row_ok
    (touch now (finalize_patch clientSha256
                  (if bool_decide (clientSha256 = "") then Corrupt else Ready) version a)).
Proof.
  intros (Hpath & Hmime & _). split; [done|]. split; [done|].
  unfold status_matches_hash. simpl.
  case_bool_decide; simpl; [by subst|by exists clientSha256].
Qed.

Lemma perform_keeps_asset_rows c w :
  Forall asset_row_ok (asset w) → Forall asset_row_ok (asset (perform c w)).
Proof.
  intros Hrows.
  destruct c as [[ctx filename mime size assetId nonce now|ctx assetId filename version now
                 |ctx assetId toEmail canDownload version shareId now
                 |ctx assetId toEmail version]
                |ctx assetId clientSha256 version now|ctx assetId version removed
                |ctx assetId accessToken auditId now|[ctx accessToken now|now]]; simpl.
  - destruct (createUploadUrl_world ctx filename mime size assetId nonce now w)
      as [->|(u & Hu & Hmime & [-> | ->])]; [done|..]; simpl;
      (apply Forall_app; split; [done|]); apply Forall_singleton;
      by apply asset_row_ok_draft.
  - destruct (renameAsset_world ctx assetId filename version now w) as [->|(u & ->)];
      [done|]. simpl.
    apply Forall_fmap, Forall_forall. intros x Hx. simpl.
    eapply Forall_forall in Hrows; [|done].
    case_decide; [by apply asset_row_ok_renamed|done].
  - by rewrite shareAsset_keeps_assets.
  - by rewrite revokeShare_keeps_assets.
  - destruct (finalizeUpload_world ctx assetId clientSha256 version now w)
      as [->|[->| ->]]; [done|done|]. simpl.
    apply Forall_fmap, Forall_forall. intros x Hx. simpl.
    eapply Forall_forall in Hrows; [|done].
    case_decide; [by apply asset_row_ok_finalized|done].
  - destruct (deleteAsset_world ctx assetId version removed w) as [->|(u & path & ->)];
      [done|]. simpl.
    apply Forall_forall. intros x [_ Hx]%list_elem_of_filter.
    eapply Forall_forall; [exact Hrows|]. by destruct removed.
  - by rewrite getDownloadUrl_keeps_assets.
  - by rewrite validateDownloadToken_keeps_assets.
  - done.
Qed.

Lemma same_origin_refl a : same_origin a a.
Proof. by repeat split. Qed.

Lemma same_origin_trans a b c : same_origin a b → same_origin b c → same_origin a c.
Proof.
  intros (? & ? & ? & ? & ? & ?) (? & ? & ? & ? & ? & ?).
  repeat split; congruence.
Qed.

(** A row after a call is a row from before the call, with the columns of
    [same_origin] as they were, or the draft row the call created. *)
Lemma perform_origin c w a' :
  a' ∈ asset (perform c w) → ∃ a, (a ∈ asset w ∨ created_by c a) ∧ same_origin a a'.
Proof.
  assert (∀ x, x ∈ asset w → ∃ a, (a ∈ asset w ∨ created_by c a) ∧ same_origin a x)
    as Hold.
  { intros x Hx. exists x. split; [by left|apply same_origin_refl]. }
  destruct c as [[ctx filename mime size assetId nonce now|ctx assetId filename version now
                 |ctx assetId toEmail canDownload version shareId now
                 |ctx assetId toEmail version]
                |ctx assetId clientSha256 version now|ctx assetId version removed
                |ctx assetId accessToken auditId now|[ctx accessToken now|now]]; simpl.
  - destruct (createUploadUrl_world ctx filename mime size assetId nonce now w)
      as [->|(u & Hu & Hmime & [-> | ->])]; [apply Hold|..]; simpl;
      intros [Hin|Hnew%list_elem_of_singleton]%elem_of_app; try (by apply Hold);
      subst a'; exists (draft_row u filename mime size assetId now);
      (split; [right; by exists u|apply same_origin_refl]).
  - destruct (renameAsset_world ctx assetId filename version now w) as [->|(u & ->)];
      [apply Hold|]. simpl.
    intros (a & -> & Ha)%list_elem_of_fmap. exists a. split; [by left|].
    case_decide; [by repeat split|apply same_origin_refl].
  - rewrite shareAsset_keeps_assets. apply Hold.
  - rewrite revokeShare_keeps_assets. apply Hold.
  - destruct (finalizeUpload_world ctx assetId clientSha256 version now w)
      as [->|[->| ->]]; [apply Hold|apply Hold|]. simpl.
    intros (a & -> & Ha)%list_elem_of_fmap. exists a. split; [by left|].
    case_decide; [by repeat split|apply same_origin_refl].
  - destruct (deleteAsset_world ctx assetId version removed w) as [->|(u & path & ->)];
      [apply Hold|]. simpl.
    intros [_ Hin]%list_elem_of_filter. apply Hold. by destruct removed.
  - rewrite getDownloadUrl_keeps_assets. apply Hold.
  - rewrite validateDownloadToken_keeps_assets. apply Hold.
  - apply Hold.
Qed.

(** X25. The asset rows the resolvers leave behind. After any run of calls
    from a ledger whose asset rows are in order (an empty one for instance),
    every asset row has a storage path of the form [owner/id/sanitized name],
    a MIME type of the allowed list, and a status that agrees with its hash:
    [draft] with no hash, [ready] with a nonempty hash, [corrupt] with the
    empty hash, and never [uploading]. Moreover every asset row after the
    run has the id, the owner, the MIME type, the size, the creation time
    and the storage path of a row of the starting ledger or of the draft
    row a [createUploadUrl] call of the run wrote for its caller: no call,
    [renameAsset] included, moves the storage path an asset was created
    with. *)
Theorem asset_rows_after_calls cs w :
  Forall asset_row_ok (asset w) →
  Forall asset_row_ok (asset (perform_all cs w))
  ∧ ∀ a', a' ∈ asset (perform_all cs w) →
          ∃ a, (a ∈ asset w ∨ ∃ c, c ∈ cs ∧ created_by c a) ∧ same_origin a a'.
Proof.
  intros Hrows. split.
  - revert w Hrows. induction cs as [|c cs IH]; intros w Hrows; [done|].
    simpl. by apply IH, perform_keeps_asset_rows.
  - clear Hrows. revert w. induction cs as [|c cs IH]; intros w a' Hin; simpl in Hin.
    + exists a'. split; [by left|apply same_origin_refl].
    + destruct (IH _ _ Hin) as (b & [Hb|(c' & Hc' & Hmade)] & Hsame).
      * destruct (perform_origin c w b Hb) as (a & [Ha|Hmade] & Hfirst).
        -- exists a. split; [by left|by apply (same_origin_trans a b)].
        -- exists a. split; [|by apply (same_origin_trans a b)].
           right. exists c. split; [apply list_elem_of_here|done].
      * exists b. split; [|done].
        right. exists c'. split; [by apply list_elem_of_further|done].
Qed.

(** After a creation, a finalize and a rename to [x.jpg], [asset-1] is
    still stored under the sanitized name it was uploaded with. *)
Lemma asset_rows_after_calls_witness :
  let cs := [Mutate (Create Scenario.alice "my photo.jpg" "image/jpeg" 1024 "asset-1"
                            "nonce-1" 1000);
             Finalize Scenario.alice "asset-1" "" 1 2000;
             Mutate (Rename Scenario.alice "asset-1" "x.jpg" 1 3000)] in
  Forall asset_row_ok (asset (perform_all cs Scenario.empty))
  ∧ Asset.filename <$> asset (perform_all cs Scenario.empty) = ["x.jpg"]
  ∧ Asset.storage_path <$> asset (perform_all cs Scenario.empty)
    = ["user-a/asset-1/my_photo.jpg"].
Proof.
  intros cs.
  destruct (asset_rows_after_calls cs Scenario.empty) as [Hrows _];
    [apply Forall_nil_2|].
  split; [exact Hrows|]. split; reflexivity.
Defined.

(** ** The references between the tables after every call *)

Lemma references_same_tables w w' :
  asset w' = asset w → upload_ticket w' = upload_ticket w →
  asset_share w' = asset_share w → download_audit w' = download_audit w →
  references_ok w → references_ok w'.
Proof. unfold references_ok. by intros -> -> -> ->. Qed.

Lemma references_assets_rewritten (f : Asset.row → Asset.row) w :
  (∀ a, Asset.id (f a) = Asset.id a) →
  (∀ t a, t ∈ upload_ticket w → ticket_of_asset t a → ticket_of_asset t (f a)) →
  references_ok w → references_ok (set_asset (f <$> asset w) w).
Proof.
  intros Hid Hticket (Ht & Hs & Hr). split; [|split]; simpl.
  - apply Forall_forall. intros t Hin.
    eapply Forall_forall in Ht as (a & Ha & Hta); [|done].
    exists (f a). split; [by apply list_elem_of_fmap_2|by apply Hticket].
  - eapply Forall_impl; [exact Hs|]. intros s (a & Ha & Hsa).
    exists (f a). split; [by apply list_elem_of_fmap_2|by rewrite Hid].
  - eapply Forall_impl; [exact Hr|]. intros r (a & Ha & Hra).
    exists (f a). split; [by apply list_elem_of_fmap_2|by rewrite Hid].
Qed.

Lemma references_assets_grown rows w :
  (∀ a, a ∈ asset w → a ∈ rows) → references_ok w → references_ok (set_asset rows w).
Proof.
  intros Hgrown (Ht & Hs & Hr). split; [|split]; simpl;
    (eapply Forall_impl; [done|]); intros x (a & Ha & Hxa); exists a;
    (split; [by apply Hgrown|done]).
Qed.

Lemma references_ticket_added t a w :
  a ∈ asset w → ticket_of_asset t a →
  references_ok w → references_ok (set_upload_ticket (upload_ticket w ++ [t]) w).
Proof.
  intros Ha Hta (Ht & Hs & Hr). split; [|by split]. simpl.
  apply Forall_app. split; [done|]. apply Forall_singleton. by exists a.
Qed.

Lemma references_tickets_marked assetId w :
  references_ok w →
  references_ok
    (set_upload_ticket
       ((λ t, if decide (Ticket.asset_id t = assetId) then mark_used t else t)
          <$> upload_ticket w) w).
Proof.
  intros (Ht & Hs & Hr). split; [|by split]. simpl.
  apply Forall_fmap. eapply Forall_impl; [exact Ht|].
  intros t (a & Ha & Hta). exists a. split; [done|]. simpl.
  case_decide; [|done].
  destruct Hta as (? & ? & ? & ? & ? & _). by repeat split.
Qed.

Lemma references_shares (rows : list Share.row) w :
  Forall (λ s, ∃ a, a ∈ asset w ∧ Asset.id a = Share.asset_id s) rows →
  references_ok w → references_ok (set_asset_share rows w).
Proof. intros Hrows (Ht & _ & Hr). by split; [|split]. Qed.

Lemma references_audit_added row w :
  Exists (λ a, Asset.id a = Audit.asset_id row) (asset w) →
  references_ok w → references_ok (set_download_audit (download_audit w ++ [row]) w).
Proof.
  intros (a & Ha & Hid)%Exists_exists (Ht & Hs & Hr). split; [done|]. split; [done|].
  simpl. apply Forall_app. split; [done|]. apply Forall_singleton. by exists a.
Qed.

Lemma references_deleted (P : Asset.row → Prop) `{∀ a, Decision (P a)} w :
  references_ok w → references_ok (delete_asset P w).1.
Proof.
  intros (Ht & Hs & Hr).
  assert (∀ a, a ∈ asset w → Asset.id a ∉ Asset.id <$> filter P (asset w) →
               a ∈ filter (λ a, ¬ P a) (asset w)) as Hkept.
  { intros a Ha Hgone. apply list_elem_of_filter. split; [|done].
    intros HP. apply Hgone. apply list_elem_of_fmap_2. by apply list_elem_of_filter. }
  split; [|split]; simpl; apply Forall_forall; intros x [Hx Hin]%list_elem_of_filter.
  - eapply Forall_forall in Ht as (a & Ha & Hta); [|done].
    exists a. split; [|done]. apply Hkept; [done|].
    destruct Hta as (-> & _). done.
  - eapply Forall_forall in Hs as (a & Ha & Hsa); [|done].
    exists a. split; [|done]. apply Hkept; [done|]. by rewrite Hsa.
  - eapply Forall_forall in Hr as (a & Ha & Hra); [|done].
    exists a. split; [|done]. apply Hkept; [done|]. by rewrite Hra.
Qed.

Lemma perform_keeps_references c w : references_ok w → references_ok (perform c w).
Proof.
  intros Hok.
  destruct c as [[ctx filename mime size assetId nonce now|ctx assetId filename version now
                 |ctx assetId toEmail canDownload version shareId now
                 |ctx assetId toEmail version]
                |ctx assetId clientSha256 version now|ctx assetId version removed
                |ctx assetId accessToken auditId now|[ctx accessToken now|now]]; simpl.
  - destruct (createUploadUrl_world ctx filename mime size assetId nonce now w)
      as [->|(u & Hu & Hmime & [-> | ->])]; [done|..].
    + apply references_assets_grown; [|done].
      intros a Ha. apply elem_of_app. by left.
    + apply (references_ticket_added
               _ (draft_row u filename mime size assetId now)
               (set_asset (asset w ++ [draft_row u filename mime size assetId now]) w)).
      * simpl. apply elem_of_app. right. by apply list_elem_of_singleton.
      * by repeat split.
      * apply references_assets_grown; [|done].
        intros a Ha. apply elem_of_app. by left.
  - destruct (renameAsset_world ctx assetId filename version now w) as [->|(u & ->)];
      [done|].
    apply references_assets_rewritten; [| |done].
    + intros a. by case_decide.
    + intros t a _ Hta. by case_decide.
  - destruct (shareAsset_world ctx assetId toEmail canDownload version shareId now w)
      as [->|(s & (a & Ha & Hid)%Exists_exists & [-> | ->])]; [done|..];
      (apply references_shares; [|done]); destruct Hok as (_ & Hs & _).
    + apply Forall_fmap. eapply Forall_impl; [exact Hs|].
      intros x Hx. simpl. case_decide; [by exists a|done].
    + apply Forall_app. split; [done|]. apply Forall_singleton. by exists a.
  - destruct (revokeShare_world ctx assetId toEmail version w) as [->|(to_user & ->)];
      [done|].
    apply references_shares; [|done]. destruct Hok as (_ & Hs & _).
    apply Forall_forall. intros x [_ Hx]%list_elem_of_filter.
    by eapply Forall_forall in Hs.
  - destruct (finalizeUpload_world ctx assetId clientSha256 version now w)
      as [->|[->| ->]]; [done|by apply references_tickets_marked|].
    apply (references_assets_rewritten
             (λ a, if decide (Asset.id a = assetId)
                   then touch now (finalize_patch clientSha256
                                     (if bool_decide (clientSha256 = "")
                                      then Corrupt else Ready) version a)
                   else a)
             (set_upload_ticket
                ((λ t, if decide (Ticket.asset_id t = assetId) then mark_used t else t)
                   <$> upload_ticket w) w)); [| |by apply references_tickets_marked].
    + intros a. by case_decide.
    + intros t a Ht Hta. case_decide as Haid; [|done].
      destruct Hta as (Hid & Ho & Hp & Hm & Hsz & _).
      do 5 (split; [done|]). intros Hunused. simpl in Ht.
      apply list_elem_of_fmap in Ht as (t0 & -> & _).
      destruct (decide (Ticket.asset_id t0 = assetId)); [done|]. congruence.
  - destruct (deleteAsset_world ctx assetId version removed w) as [->|(u & path & ->)];
      [done|].
    apply references_deleted.
    apply (references_same_tables w); [by destruct removed..|done].
  - destruct (getDownloadUrl_world ctx assetId accessToken auditId now w)
      as [->|(cache & [->|(row & Hfk & ->)])]; [done| |].
    + by apply (references_same_tables w).
    + apply (references_audit_added row (set_urlAccessCache cache w)); [done|].
      by apply (references_same_tables w).
  - destruct (validateDownloadToken_world ctx accessToken now w) as [->|(cache & ->)];
      [done|]. by apply (references_same_tables w).
  - by apply (references_same_tables w).
Qed.

(** X26. The references between the tables. After any run of calls from a
    ledger whose references are in order (an empty one for instance), every
    upload ticket belongs to an asset of the ledger, with the owner as its
    user and the same storage path, MIME type and size, and an unused ticket
    belongs to a [draft] asset; every grant and every audit row names an
    asset of the ledger, also after assets were deleted. *)
Theorem references_after_calls cs w :
  references_ok w → references_ok (perform_all cs w).
Proof.
  revert w. induction cs as [|c cs IH]; intros w Hok; [done|].
  simpl. by apply IH, perform_keeps_references.
Qed.

Lemma references_after_calls_witness :
  references_ok
    (perform_all
       [Mutate (Create Scenario.alice "photo.jpg" "image/jpeg" 1024 "asset-1" "nonce-1"
                       1000);
        Finalize Scenario.alice "asset-1" "cafebabe" 1 2000;
        Mutate (ShareWith Scenario.alice "asset-1" "b@example.org" true 1 "share-1" 4000);
        Download Scenario.bob "asset-1" "tok-2" "audit-2" 5000;
        Delete Scenario.alice "asset-1" 1 true]
       Scenario.empty).
Proof.
  apply references_after_calls. split; [|split]; apply Forall_nil_2.
Defined.

(** ** One call after another *)

(** X27. The version guard between two writers. After a [renameAsset] that
    returned, the version it presented is stale for everyone: a second
    [renameAsset] with it throws [CONFLICT], and [shareAsset], [revokeShare]
    and [deleteAsset] with it throw the [PGRST116] error; none of them
    writes. *)
Theorem stale_version_after_rename ctx ctx' u' assetId filename version now w :
  primary_key w →
  accepted (renameAsset ctx assetId filename version now w) →
  authenticated ctx' u' →
  let w' := (renameAsset ctx assetId filename version now w).1 in
  (∀ filename' now',
     renameAsset ctx' assetId filename' version now' w'
     = (w', inl (GraphQLError "Version conflict" "CONFLICT")))
  ∧ (∀ toEmail canDownload shareId now',
       shareAsset ctx' assetId toEmail canDownload version shareId now' w'
       = (w', inl (PostgrestError "PGRST116")))
  ∧ (∀ toEmail,
       revokeShare ctx' assetId toEmail version w' = (w', inl (PostgrestError "PGRST116")))
  ∧ (∀ removed,
       deleteAsset ctx' assetId version removed w' = (w', inl (PostgrestError "PGRST116"))).
Proof.
  intros Hpk Hacc Hauth' w'.
  destruct (renameAsset_accepted_inv _ _ _ _ _ _ Hacc) as (u & a & Hauth & Hguard & Hworld).
  destruct (guarded_row_is_the_row _ _ _ _ _ Hpk Hguard) as (Hin & Hid & Ho & Hv & _).
  fold w' in Hworld.
  assert (filter (λ x, Asset.id x = assetId ∧ Asset.owner_id x = u'
                       ∧ Asset.version x = version) (asset w') = []) as Hstale.
  { rewrite Hworld. simpl. apply filter_none, Forall_fmap, Forall_forall.
    intros x Hx. simpl. case_decide as Hmatch.
    - intros (_ & _ & Hsame). simpl in Hsame. lia.
    - intros (Hxid & _ & Hxv). apply Hmatch.
      assert (x = a) as ->; [|done].
      apply (key_determines_row Asset.id (asset w)); [exact Hpk|done|done|congruence]. }
  split; [|split; [|split]].
  - intros filename' now'. by apply (renameAsset_no_row ctx' u').
  - intros toEmail canDownload shareId now'. unfold shareAsset. as_user Hauth'.
    unfold bind, gets, guarded_asset. by rewrite Hstale.
  - intros toEmail. unfold revokeShare. as_user Hauth'.
    unfold bind, gets, guarded_asset. by rewrite Hstale.
  - intros removed. unfold deleteAsset. as_user Hauth'.
    unfold bind, gets, guarded_asset. by rewrite Hstale.
Qed.

Lemma stale_version_after_rename_witness :
  let w' := (renameAsset Scenario.alice "asset-1" "new.jpg" 1 3000 Scenario.finalized).1 in
  renameAsset Scenario.alice "asset-1" "other.jpg" 1 3500 w'
  = (w', inl (GraphQLError "Version conflict" "CONFLICT"))
  ∧ deleteAsset Scenario.alice "asset-1" 1 true w' = (w', inl (PostgrestError "PGRST116")).
Proof.
  intros w'.
  assert (authenticated Scenario.alice "user-a") as Halice by by split.
  destruct (stale_version_after_rename Scenario.alice Scenario.alice "user-a" "asset-1"
              "new.jpg" 1 3000 Scenario.finalized)
    as (Hrename & _ & _ & Hdelete).
  - apply NoDup_singleton.
  - reflexivity.
  - exact Halice.
  - split; [apply Hrename|apply Hdelete].
Defined.

(** X28. A download token outlives the grant and the asset. [revokeShare]
    and [deleteAsset] do not touch the token cache: a token that was cached
    for a caller is still validated for that caller afterwards, until it
    expires, and the validation returns the asset id it was minted for. *)
Theorem token_outlives_revoke_and_delete ctx u accessToken now w e
    owner assetId toEmail version removed :
  authenticated ctx u →
  urlAccessCache w !! accessToken = Some e → ce_userId e = u → now ≤ ce_expiresAt e →
  (validateDownloadToken ctx accessToken now
     (revokeShare owner assetId toEmail version w).1).2
  = inr (mkTokenValidation true (ce_assetId e))
  ∧ (validateDownloadToken ctx accessToken now
       (deleteAsset owner assetId version removed w).1).2
    = inr (mkTokenValidation true (ce_assetId e)).
Proof.
  intros Hauth Hcached Huser Hnow.
  assert (∀ w', urlAccessCache w' = urlAccessCache w →
                (validateDownloadToken ctx accessToken now w').2
                = inr (mkTokenValidation true (ce_assetId e))) as Hvalid.
  { intros w' Hsame. rewrite (validateDownloadToken_cases ctx u) by done.
    rewrite Hsame, Hcached.
    rewrite bool_decide_eq_false_2 by (by intros ?).
    by rewrite bool_decide_eq_false_2 by lia. }
  split; apply Hvalid.
  - by destruct (revokeShare_world owner assetId toEmail version w) as [->|(to_user & ->)].
  - destruct (deleteAsset_world owner assetId version removed w) as [->|(o & path & ->)];
      [done|]. simpl. by destruct removed.
Qed.

Lemma token_outlives_revoke_and_delete_witness :
  let minted := (getDownloadUrl Scenario.bob "asset-1" "tok-2" "audit-2" 5000
                                Cases.shared).1 in
  (validateDownloadToken Scenario.bob "tok-2" 6000
     (revokeShare Scenario.alice "asset-1" "b@example.org" 1 minted).1).2
  = inr (mkTokenValidation true "asset-1")
  ∧ (validateDownloadToken Scenario.bob "tok-2" 6000
       (deleteAsset Scenario.alice "asset-1" 1 true minted).1).2
    = inr (mkTokenValidation true "asset-1").
Proof.
  intros minted.
  assert (authenticated Scenario.bob "user-b") as Hbob by by split.
  apply (token_outlives_revoke_and_delete Scenario.bob "user-b" "tok-2" 6000 minted
           (mkCacheEntry "user-b" "asset-1" 95000) Scenario.alice "asset-1"
           "b@example.org" 1 true Hbob); [reflexivity|reflexivity|simpl; lia].
Defined.
